(** * go-colorful: colour-space conversions, distances and blends

    A shallow embedding of [colors.go].  A [float64] is modelled by a real
    number and every arithmetic operation by the exact operation on reals, so
    the development speaks about the formulas the package computes and not
    about the rounding of an individual operation.  The functions of Go's
    [math] package are modelled on the part of their domain the package
    reaches (see [Mod], [Pow], [Cbrt], [Atan2]); NaN and the infinities have
    no counterpart. *)

From Stdlib Require Import Reals Lra Lia ZArith Bool Ascii String.

Open Scope R_scope.

(** ** Go's [math] package over the reals *)

Module GoMath.

(** Comparisons of the source, as booleans. *)
Definition ltb (x y : R) : bool := if Rlt_dec x y then true else false.
Definition leb (x y : R) : bool := if Rle_dec x y then true else false.
Definition eqb (x y : R) : bool := if Req_dec_T x y then true else false.
Definition neqb (x y : R) : bool := negb (eqb x y).

(** [math.Mod(x, y)]: the remainder of the truncated division; the result
    has the sign of [x] and a magnitude below [|y|].  The package only calls
    it with the constant moduli 360 and 6. *)
Definition Mod (x y : R) : R :=
  let r := Rabs x - IZR (Int_part (Rabs x / Rabs y)) * Rabs y in
  if Rlt_dec x 0 then - r else r.

(** [math.Pow(x, y)] for a base [x >= 0] and an exponent [y > 0], the only
    calls of the package ([Pow(0, y) = 0]). *)
Definition Pow (x y : R) : R := if Rlt_dec 0 x then Rpower x y else 0.

(** [math.Cbrt]: the real cube root, odd in its argument. *)
Definition Cbrt (x : R) : R :=
  if Rlt_dec 0 x then Rpower x (/ 3)
  else if Rlt_dec x 0 then - Rpower (- x) (/ 3)
  else 0.

(** [math.Atan2(y, x)], the angle of the point [(x, y)] in (-PI, PI]. *)
Definition Atan2 (y x : R) : R :=
  if Rlt_dec 0 x then atan (y / x)
  else if Rlt_dec x 0 then
    (if Rle_dec 0 y then atan (y / x) + PI else atan (y / x) - PI)
  else if Rlt_dec 0 y then PI / 2
  else if Rlt_dec y 0 then - (PI / 2)
  else 0.

End GoMath.

Import GoMath.

Infix "<?" := ltb (at level 70, no associativity) : R_scope.
Infix "<=?" := leb (at level 70, no associativity) : R_scope.
Infix "=?" := eqb (at level 70, no associativity) : R_scope.
Infix "!=?" := neqb (at level 70, no associativity) : R_scope.

(** ** The colour type and the RGB core *)

(** [type Color struct { R, G, B float64 }] *)
Record Color : Type := mkColor { chR : R; chG : R; chB : R }.

(** A triple of coordinates, the three results of a conversion. *)
Definition triple : Type := (R * R * R)%type.

Definition fst3 (p : triple) : R := fst (fst p).
Definition snd3 (p : triple) : R := snd (fst p).
Definition thd3 (p : triple) : R := snd p.

Definition Delta : R := 1 / 255.

(** Reference whites, [[3]float64]. *)
Definition D65 : triple := (0.95047, 1.00000, 1.08883).
Definition D50 : triple := (0.96422, 1.00000, 0.82521).

Definition IsValid (c : Color) : bool :=
  (0 <=? chR c) && (chR c <=? 1) &&
  (0 <=? chG c) && (chG c <=? 1) &&
  (0 <=? chB c) && (chB c <=? 1).

Definition clamp01 (v : R) : R := Rmax 0 (Rmin v 1).

Definition Clamped (c : Color) : Color :=
  mkColor (clamp01 (chR c)) (clamp01 (chG c)) (clamp01 (chB c)).

Definition sq (v : R) : R := v * v.
Definition cub (v : R) : R := v * v * v.

Definition DistanceRgb (c1 c2 : Color) : R :=
  sqrt (sq (chR c1 - chR c2) + sq (chG c1 - chG c2) + sq (chB c1 - chB c2)).

Definition DistanceRiemersma (c1 c2 : Color) : R :=
  let rAvg := (chR c1 + chR c2) / 2 in
  let dR := chR c1 - chR c2 in
  let dG := chG c1 - chG c2 in
  let dB := chB c1 - chB c2 in
  sqrt ((2 + rAvg) * dR * dR + 4 * dG * dG + (2 + (1 - rAvg)) * dB * dB).

Definition AlmostEqualRgb (c1 c2 : Color) : bool :=
  Rabs (chR c1 - chR c2) + Rabs (chG c1 - chG c2) + Rabs (chB c1 - chB c2)
  <? 3 * Delta.

Definition BlendRgb (c1 c2 : Color) (t : R) : Color :=
  mkColor (chR c1 + t * (chR c2 - chR c1))
          (chG c1 + t * (chG c2 - chG c1))
          (chB c1 + t * (chB c2 - chB c1)).

(** The shortest signed arc from [a0] to [a1], the local [delta] of
    [interp_angle]. *)
Definition angle_delta (a0 a1 : R) : R :=
  Mod (Mod (a1 - a0) 360 + 540) 360 - 180.

Definition interp_angle (a0 a1 t : R) : R :=
  let delta := angle_delta a0 a1 in
  Mod (a0 + t * delta + 360) 360.

(** ** HSV and HSL *)

(** [func (col Color) Hsv() (h, s, v float64)] *)
Definition Color_Hsv (col : Color) : triple :=
  let min := Rmin (Rmin (chR col) (chG col)) (chB col) in
  let v := Rmax (Rmax (chR col) (chG col)) (chB col) in
  let C := v - min in
  let s := if v !=? 0 then C / v else 0 in
  let h :=
    if min !=? v then
      let h := 0 in
      let h := if v =? chR col then Mod ((chG col - chB col) / C) 6 else h in
      let h := if v =? chG col then (chB col - chR col) / C + 2 else h in
      let h := if v =? chB col then (chR col - chG col) / C + 4 else h in
      let h := h * 60 in
      if h <? 0 then h + 360 else h
    else 0 in
  (h, s, v).

(** [func Hsv(H, S, V float64) Color]; the [switch] has no default case, so
    outside the six sectors [r], [g] and [b] keep their initial zero. *)
Definition Hsv (H S V : R) : Color :=
  let Hp := H / 60 in
  let C := V * S in
  let X := C * (1 - Rabs (Mod Hp 2 - 1)) in
  let m := V - C in
  let '(r, g, b) :=
    if (0 <=? Hp) && (Hp <? 1) then (C, X, 0)
    else if (1 <=? Hp) && (Hp <? 2) then (X, C, 0)
    else if (2 <=? Hp) && (Hp <? 3) then (0, C, X)
    else if (3 <=? Hp) && (Hp <? 4) then (0, X, C)
    else if (4 <=? Hp) && (Hp <? 5) then (X, 0, C)
    else if (5 <=? Hp) && (Hp <? 6) then (C, 0, X)
    else (0, 0, 0) in
  mkColor (m + r) (m + g) (m + b).

(** The coordinates [BlendHsv] hands to [Hsv]. *)
Definition BlendHsv_coords (c1 c2 : Color) (t : R) : triple :=
  let '(h1, s1, v1) := Color_Hsv c1 in
  let '(h2, s2, v2) := Color_Hsv c2 in
  let '(h1, h2) :=
    if (s1 =? 0) && (s2 !=? 0) then (h2, h2)
    else if (s2 =? 0) && (s1 !=? 0) then (h1, h1)
    else (h1, h2) in
  (interp_angle h1 h2 t, s1 + t * (s2 - s1), v1 + t * (v2 - v1)).

Definition BlendHsv (c1 c2 : Color) (t : R) : Color :=
  let '(h, s, v) := BlendHsv_coords c1 c2 t in Hsv h s v.

(** [func (col Color) Hsl() (h, s, l float64)] *)
Definition Color_Hsl (col : Color) : triple :=
  let min := Rmin (Rmin (chR col) (chG col)) (chB col) in
  let max := Rmax (Rmax (chR col) (chG col)) (chB col) in
  let l := (max + min) / 2 in
  if min =? max then (0, 0, l)
  else
    let s := if l <? 0.5 then (max - min) / (max + min)
             else (max - min) / (2 - max - min) in
    let h := if max =? chR col then (chG col - chB col) / (max - min)
             else if max =? chG col then 2 + (chB col - chR col) / (max - min)
             else 4 + (chR col - chG col) / (max - min) in
    let h := h * 60 in
    let h := if h <? 0 then h + 360 else h in
    (h, s, l).

(** The two wrapping statements [Hsl] applies to each of [tr], [tg], [tb]. *)
Definition hsl_wrap (tc : R) : R :=
  let tc := if tc <? 0 then tc + 1 else tc in
  if 1 <? tc then tc - 1 else tc.

(** The four-way breakpoint test [Hsl] applies to each channel. *)
Definition hsl_channel (t1 t2 tc : R) : R :=
  if 6 * tc <? 1 then t2 + (t1 - t2) * 6 * tc
  else if 2 * tc <? 1 then t1
  else if 3 * tc <? 2 then t2 + (t1 - t2) * (2 / 3 - tc) * 6
  else t2.

(** [func Hsl(h, s, l float64) Color] *)
Definition Hsl (h s l : R) : Color :=
  if s =? 0 then mkColor l l l
  else
    let t1 := if l <? 0.5 then l * (1 + s) else l + s - l * s in
    let t2 := 2 * l - t1 in
    let h := h / 360 in
    let tr := hsl_wrap (h + 1 / 3) in
    let tg := hsl_wrap h in
    let tb := hsl_wrap (h - 1 / 3) in
    mkColor (hsl_channel t1 t2 tr) (hsl_channel t1 t2 tg) (hsl_channel t1 t2 tb).

(** ** Linear RGB *)

Definition linearize (v : R) : R :=
  if v <=? 0.04045 then v / 12.92
  else Pow ((v + 0.055) / 1.055) 2.4.

Definition Color_LinearRgb (col : Color) : triple :=
  (linearize (chR col), linearize (chG col), linearize (chB col)).

Definition delinearize (v : R) : R :=
  if v <=? 0.0031308 then 12.92 * v
  else 1.055 * Pow v (1 / 2.4) - 0.055.

Definition LinearRgb (p : triple) : Color :=
  let '(r, g, b) := p in mkColor (delinearize r) (delinearize g) (delinearize b).

Definition XyzToLinearRgb (p : triple) : triple :=
  let '(x, y, z) := p in
  (3.2409699419045214 * x - 1.5373831775700935 * y - 0.49861076029300328 * z,
   -0.96924363628087983 * x + 1.8759675015077207 * y + 0.041555057407175613 * z,
   0.055630079696993609 * x - 0.20397695888897657 * y + 1.0569715142428786 * z).

Definition LinearRgbToXyz (p : triple) : triple :=
  let '(r, g, b) := p in
  (0.41239079926595948 * r + 0.35758433938387796 * g + 0.18048078840183429 * b,
   0.21263900587151036 * r + 0.71516867876775593 * g + 0.072192315360733715 * b,
   0.019330818715591851 * r + 0.11919477979462599 * g + 0.95053215224966058 * b).

Definition DistanceLinearRgb (c1 c2 : Color) : R :=
  let '(r1, g1, b1) := Color_LinearRgb c1 in
  let '(r2, g2, b2) := Color_LinearRgb c2 in
  sqrt (sq (r1 - r2) + sq (g1 - g2) + sq (b1 - b2)).

Definition BlendLinearRgb (c1 c2 : Color) (t : R) : Color :=
  let '(r1, g1, b1) := Color_LinearRgb c1 in
  let '(r2, g2, b2) := Color_LinearRgb c2 in
  LinearRgb (r1 + t * (r2 - r1), g1 + t * (g2 - g1), b1 + t * (b2 - b1)).

(** ** XYZ and xyY *)

Definition Color_Xyz (col : Color) : triple := LinearRgbToXyz (Color_LinearRgb col).

Definition Xyz (p : triple) : Color := LinearRgb (XyzToLinearRgb p).

Definition XyzToXyyWhiteRef (p : triple) (wref : triple) : triple :=
  let '(X, Y, Z) := p in
  let Yout := Y in
  let N := X + Y + Z in
  if Rabs N <? 1e-14 then
    (fst3 wref / (fst3 wref + snd3 wref + thd3 wref),
     snd3 wref / (fst3 wref + snd3 wref + thd3 wref),
     Yout)
  else (X / N, Y / N, Yout).

Definition XyzToXyy (p : triple) : triple := XyzToXyyWhiteRef p D65.

Definition XyyToXyz (p : triple) : triple :=
  let '(x, y, Y) := p in
  let Yout := Y in
  if (-1e-14 <? y) && (y <? 1e-14) then (0, Yout, 0)
  else (Y / y * x, Yout, Y / y * (1 - x - y)).

Definition Color_Xyy (col : Color) : triple := XyzToXyy (Color_Xyz col).

Definition Color_XyyWhiteRef (col : Color) (wref : triple) : triple :=
  XyzToXyyWhiteRef (Color_Xyz col) wref.

Definition Xyy (p : triple) : Color := Xyz (XyyToXyz p).

(** ** CIE L*a*b* *)

Definition lab_f (t : R) : R :=
  if 6 / 29 * 6 / 29 * 6 / 29 <? t then Cbrt t
  else t / 3 * 29 / 6 * 29 / 6 + 4 / 29.

Definition XyzToLabWhiteRef (p : triple) (wref : triple) : triple :=
  let '(x, y, z) := p in
  let fy := lab_f (y / snd3 wref) in
  let l := 1.16 * fy - 0.16 in
  let a := 5 * (lab_f (x / fst3 wref) - fy) in
  let b := 2 * (fy - lab_f (z / thd3 wref)) in
  (l, a, b).

Definition XyzToLab (p : triple) : triple := XyzToLabWhiteRef p D65.

Definition lab_finv (t : R) : R :=
  if 6 / 29 <? t then t * t * t
  else 3 * 6 / 29 * 6 / 29 * (t - 4 / 29).

Definition LabToXyzWhiteRef (p : triple) (wref : triple) : triple :=
  let '(l, a, b) := p in
  let l2 := (l + 0.16) / 1.16 in
  (fst3 wref * lab_finv (l2 + a / 5),
   snd3 wref * lab_finv l2,
   thd3 wref * lab_finv (l2 - b / 2)).

Definition LabToXyz (p : triple) : triple := LabToXyzWhiteRef p D65.

Definition Color_Lab (col : Color) : triple := XyzToLab (Color_Xyz col).

Definition Color_LabWhiteRef (col : Color) (wref : triple) : triple :=
  XyzToLabWhiteRef (Color_Xyz col) wref.

Definition Lab (p : triple) : Color := Xyz (LabToXyz p).

Definition LabWhiteRef (p : triple) (wref : triple) : Color :=
  Xyz (LabToXyzWhiteRef p wref).




(** The primed hue of CIEDE2000, in degrees. *)
Definition ciede2000_hp (b ap : R) : R :=
  if (b !=? ap) || (ap !=? 0) then
    let hp := Atan2 b ap in
    let hp := if hp <? 0 then hp + PI * 2 else hp in
    hp * (180 / PI)
  else 0.

(** The hue difference of CIEDE2000, brought into [[-180, 180]]. *)
Definition ciede2000_dhp (cpProduct hp1 hp2 : R) : R :=
  if cpProduct !=? 0 then
    let dhp := hp2 - hp1 in
    if 180 <? dhp then dhp - 360
    else if dhp <? -180 then dhp + 360
    else dhp
  else 0.

(** The mean hue of CIEDE2000. *)
Definition ciede2000_hpmean (cpProduct hp1 hp2 : R) : R :=
  let hpmean := hp1 + hp2 in
  if cpProduct !=? 0 then
    let hpmean := hpmean / 2 in
    if 180 <? Rabs (hp1 - hp2) then
      (if hp1 + hp2 <? 360 then hpmean + 180 else hpmean - 180)
    else hpmean
  else hpmean.

Definition DistanceCIEDE2000klch (cl cr : Color) (kl kc kh : R) : R :=
  let '(l1, a1, b1) := Color_Lab cl in
  let '(l2, a2, b2) := Color_Lab cr in
  let '(l1, a1, b1) := (l1 * 100, a1 * 100, b1 * 100) in
  let '(l2, a2, b2) := (l2 * 100, a2 * 100, b2 * 100) in
  let cab1 := sqrt (sq a1 + sq b1) in
  let cab2 := sqrt (sq a2 + sq b2) in
  let cabmean := (cab1 + cab2) / 2 in
  let g := 0.5 * (1 - sqrt (Pow cabmean 7 / (Pow cabmean 7 + Pow 25 7))) in
  let ap1 := (1 + g) * a1 in
  let ap2 := (1 + g) * a2 in
  let cp1 := sqrt (sq ap1 + sq b1) in
  let cp2 := sqrt (sq ap2 + sq b2) in
  let hp1 := ciede2000_hp b1 ap1 in
  let hp2 := ciede2000_hp b2 ap2 in
  let deltaLp := l2 - l1 in
  let deltaCp := cp2 - cp1 in
  let cpProduct := cp1 * cp2 in
  let dhp := ciede2000_dhp cpProduct hp1 hp2 in
  let deltaHp := 2 * sqrt cpProduct * sin (dhp / 2 * PI / 180) in
  let lpmean := (l1 + l2) / 2 in
  let cpmean := (cp1 + cp2) / 2 in
  let hpmean := ciede2000_hpmean cpProduct hp1 hp2 in
  let t := 1 - 0.17 * cos ((hpmean - 30) * PI / 180)
             + 0.24 * cos (2 * hpmean * PI / 180)
             + 0.32 * cos ((3 * hpmean + 6) * PI / 180)
             - 0.2 * cos ((4 * hpmean - 63) * PI / 180) in
  let deltaTheta := 30 * exp (- sq ((hpmean - 275) / 25)) in
  let rc := 2 * sqrt (Pow cpmean 7 / (Pow cpmean 7 + Pow 25 7)) in
  let sl := 1 + (0.015 * sq (lpmean - 50)) / sqrt (20 + sq (lpmean - 50)) in
  let sc := 1 + 0.045 * cpmean in
  let sh := 1 + 0.015 * cpmean * t in
  let rt := - sin (2 * deltaTheta * PI / 180) * rc in
  sqrt (sq (deltaLp / (kl * sl)) + sq (deltaCp / (kc * sc))
        + sq (deltaHp / (kh * sh))
        + rt * (deltaCp / (kc * sc)) * (deltaHp / (kh * sh))) * 0.01.


Definition BlendLab (c1 c2 : Color) (t : R) : Color :=
  let '(l1, a1, b1) := Color_Lab c1 in
  let '(l2, a2, b2) := Color_Lab c2 in
  Lab (l1 + t * (l2 - l1), a1 + t * (a2 - a1), b1 + t * (b2 - b1)).

(** ** CIE L*u*v* *)

Definition xyz_to_uv (p : triple) : R * R :=
  let '(x, y, z) := p in
  let denom := x + 15 * y + 3 * z in
  if denom =? 0 then (0, 0)
  else (4 * x / denom, 9 * y / denom).

Definition XyzToLuvWhiteRef (p : triple) (wref : triple) : triple :=
  let '(x, y, z) := p in
  let l :=
    if y / snd3 wref <=? 6 / 29 * 6 / 29 * 6 / 29
    then y / snd3 wref * (29 / 3 * 29 / 3 * 29 / 3) / 100
    else 1.16 * Cbrt (y / snd3 wref) - 0.16 in
  let '(ubis, vbis) := xyz_to_uv (x, y, z) in
  let '(un, vn) := xyz_to_uv (fst3 wref, snd3 wref, thd3 wref) in
  (l, 13 * l * (ubis - un), 13 * l * (vbis - vn)).

Definition XyzToLuv (p : triple) : triple := XyzToLuvWhiteRef p D65.

Definition LuvToXyzWhiteRef (p : triple) (wref : triple) : triple :=
  let '(l, u, v) := p in
  let y :=
    if l <=? 0.08
    then snd3 wref * l * 100 * 3 / 29 * 3 / 29 * 3 / 29
    else snd3 wref * cub ((l + 0.16) / 1.16) in
  let '(un, vn) := xyz_to_uv (fst3 wref, snd3 wref, thd3 wref) in
  if l !=? 0 then
    let ubis := u / (13 * l) + un in
    let vbis := v / (13 * l) + vn in
    (y * 9 * ubis / (4 * vbis), y, y * (12 - 3 * ubis - 20 * vbis) / (4 * vbis))
  else (0, 0, 0).

Definition LuvToXyz (p : triple) : triple := LuvToXyzWhiteRef p D65.

Definition Color_Luv (col : Color) : triple := XyzToLuv (Color_Xyz col).

Definition Color_LuvWhiteRef (col : Color) (wref : triple) : triple :=
  XyzToLuvWhiteRef (Color_Xyz col) wref.

Definition Luv (p : triple) : Color := Xyz (LuvToXyz p).

Definition LuvWhiteRef (p : triple) (wref : triple) : Color :=
  Xyz (LuvToXyzWhiteRef p wref).

Definition BlendLuv (c1 c2 : Color) (t : R) : Color :=
  let '(l1, u1, v1) := Color_Luv c1 in
  let '(l2, u2, v2) := Color_Luv c2 in
  Luv (l1 + t * (l2 - l1), u1 + t * (u2 - u1), v1 + t * (v2 - v1)).

(** ** HCL, the polar form of L*a*b* *)

Definition Rad2Deg : R := 57.29577951308232087721.
Definition Deg2Rad : R := 0.01745329251994329576.

Definition LabToHcl (p : triple) : triple :=
  let '(L, a, b) := p in
  let h :=
    if (1e-4 <? Rabs (b - a)) && (1e-4 <? Rabs a)
    then Mod (Rad2Deg * Atan2 b a + 360) 360
    else 0 in
  let c := sqrt (sq a + sq b) in
  (h, c, L).

Definition Color_HclWhiteRef (col : Color) (wref : triple) : triple :=
  LabToHcl (Color_LabWhiteRef col wref).

Definition Color_Hcl (col : Color) : triple := Color_HclWhiteRef col D65.

Definition HclToLab (p : triple) : triple :=
  let '(h, c, l) := p in
  let H := Deg2Rad * h in
  (l, c * cos H, c * sin H).

Definition HclWhiteRef (p : triple) (wref : triple) : Color :=
  LabWhiteRef (HclToLab p) wref.

Definition Hcl (p : triple) : Color := HclWhiteRef p D65.

(** The coordinates [BlendHcl] hands to [Hcl]. *)
Definition BlendHcl_coords (col1 col2 : Color) (t : R) : triple :=
  let '(h1, c1, l1) := Color_Hcl col1 in
  let '(h2, c2, l2) := Color_Hcl col2 in
  let '(h1, h2) :=
    if (c1 <=? 0.00015) && (0.00015 <=? c2) then (h2, h2)
    else if (c2 <=? 0.00015) && (0.00015 <=? c1) then (h1, h1)
    else (h1, h2) in
  (interp_angle h1 h2 t, c1 + t * (c2 - c1), l1 + t * (l2 - l1)).

Definition BlendHcl (col1 col2 : Color) (t : R) : Color :=
  Clamped (Hcl (BlendHcl_coords col1 col2 t)).

(** ** LuvLCh, the polar form of L*u*v* *)

Definition LuvToLuvLCh (p : triple) : triple :=
  let '(L, u, v) := p in
  let h :=
    if (1e-4 <? Rabs (v - u)) && (1e-4 <? Rabs u)
    then Mod (Rad2Deg * Atan2 v u + 360) 360
    else 0 in
  (L, sqrt (sq u + sq v), h).

Definition Color_LuvLChWhiteRef (col : Color) (wref : triple) : triple :=
  LuvToLuvLCh (Color_LuvWhiteRef col wref).

Definition Color_LuvLCh (col : Color) : triple := Color_LuvLChWhiteRef col D65.

Definition LuvLChToLuv (p : triple) : triple :=
  let '(l, c, h) := p in
  let H := Deg2Rad * h in
  (l, c * cos H, c * sin H).

Definition LuvLChWhiteRef (p : triple) (wref : triple) : Color :=
  LuvWhiteRef (LuvLChToLuv p) wref.

Definition LuvLCh (p : triple) : Color := LuvLChWhiteRef p D65.

(** The coordinates [BlendLuvLCh] hands to [LuvLCh]. *)
Definition BlendLuvLCh_coords (col1 col2 : Color) (t : R) : triple :=
  let '(l1, c1, h1) := Color_LuvLCh col1 in
  let '(l2, c2, h2) := Color_LuvLCh col2 in
  (l1 + t * (l2 - l1), c1 + t * (c2 - c1), interp_angle h1 h2 t).

Definition BlendLuvLCh (col1 col2 : Color) (t : R) : Color :=
  LuvLCh (BlendLuvLCh_coords col1 col2 t).

(** ** The remaining distances and the fast transfer functions *)

(** [DistanceLinearRGB] is the deprecated spelling of [DistanceLinearRgb]. *)
Definition DistanceLinearRGB (c1 c2 : Color) : R := DistanceLinearRgb c1 c2.

Definition DistanceLuv (c1 c2 : Color) : R :=
  let '(l1, u1, v1) := Color_Luv c1 in
  let '(l2, u2, v2) := Color_Luv c2 in
  sqrt (sq (l1 - l2) + sq (u1 - u2) + sq (v1 - v2)).

Definition linearize_fast (v : R) : R :=
  let v1 := v - 0.5 in
  let v2 := v1 * v1 in
  let v3 := v2 * v1 in
  let v4 := v2 * v2 in
  -0.248750514614486 + 0.925583310193438 * v + 1.16740237321695 * v2
  + 0.280457026598666 * v3 - 0.0757991963780179 * v4.

Definition Color_FastLinearRgb (col : Color) : triple :=
  (linearize_fast (chR col), linearize_fast (chG col), linearize_fast (chB col)).

Definition delinearize_fast (v : R) : R :=
  if 0.2 <? v then
    let v1 := v - 0.6 in
    let v2 := v1 * v1 in
    let v3 := v2 * v1 in
    let v4 := v2 * v2 in
    let v5 := v3 * v2 in
    0.442430344268235 + 0.592178981271708 * v - 0.287864782562636 * v2
    + 0.253214392068985 * v3 - 0.272557158129811 * v4 + 0.325554383321718 * v5
  else if 0.03 <? v then
    let v1 := v - 0.115 in
    let v2 := v1 * v1 in
    let v3 := v2 * v1 in
    let v4 := v2 * v2 in
    let v5 := v3 * v2 in
    0.194915592891669 + 1.55227076330229 * v - 3.93691860257828 * v2
    + 18.0679839248761 * v3 - 101.468750302746 * v4 + 632.341487393927 * v5
  else
    let v1 := v - 0.015 in
    let v2 := v1 * v1 in
    let v3 := v2 * v1 in
    let v4 := v2 * v2 in
    let v5 := v3 * v2 in
    0.0519565234928877 + 5.09316778537561 * v - 99.0338180489702 * v2
    + 3484.52322764895 * v3 - 150028.083412663 * v4 + 7168008.42971613 * v5.

Definition FastLinearRgb (p : triple) : Color :=
  let '(r, g, b) := p in
  mkColor (delinearize_fast r) (delinearize_fast g) (delinearize_fast b).

(** ** Integer channels: [RGBA], [MakeColor], [RGB255] and [Hex] *)

(** The conversion of a [float64] to an unsigned integer type discards the
    fraction.  Go leaves the result to the implementation when the value does
    not fit the type; the model truncates, and the statements below use it on
    values that fit. *)
Definition Trunc (x : R) : Z :=
  if Rlt_dec x 0 then (- Int_part (- x))%Z else Int_part x.

(** Arithmetic on [uint32] wraps around. *)
Definition uint32_wrap (n : Z) : Z := (n mod 2 ^ 32)%Z.

(** [func (col Color) RGBA() (r, g, b, a uint32)] *)
Definition RGBA (col : Color) : Z * Z * Z * Z :=
  (Trunc (chR col * 65535 + 0.5),
   Trunc (chG col * 65535 + 0.5),
   Trunc (chB col * 65535 + 0.5),
   65535%Z).

(** [func MakeColor(col color.Color) (Color, bool)], on the four [uint32]
    values the [RGBA] method of its argument returns. *)
Definition MakeColor (rgba : Z * Z * Z * Z) : Color * bool :=
  let '(r, g, b, a) := rgba in
  if (a =? 0)%Z then (mkColor 0 0 0, false)
  else
    let r := uint32_wrap (r * 65535) in
    let r := (r / a)%Z in
    let g := uint32_wrap (g * 65535) in
    let g := (g / a)%Z in
    let b := uint32_wrap (b * 65535) in
    let b := (b / a)%Z in
    (mkColor (IZR r / 65535) (IZR g / 65535) (IZR b / 65535), true).

(** [func (col Color) RGB255() (r, g, b uint8)] *)
Definition RGB255 (col : Color) : Z * Z * Z :=
  (Trunc (chR col * 255 + 0.5),
   Trunc (chG col * 255 + 0.5),
   Trunc (chB col * 255 + 0.5)).

(** [func (col Color) values() (float64, float64, float64)] *)
Definition values (col : Color) : triple := (chR col, chG col, chB col).

(** One lower-case hexadecimal digit. *)
Definition hex_digit (n : Z) : ascii :=
  match n with
  | 0%Z => "0" | 1%Z => "1" | 2%Z => "2" | 3%Z => "3"
  | 4%Z => "4" | 5%Z => "5" | 6%Z => "6" | 7%Z => "7"
  | 8%Z => "8" | 9%Z => "9" | 10%Z => "a" | 11%Z => "b"
  | 12%Z => "c" | 13%Z => "d" | 14%Z => "e" | _ => "f"
  end%char.

(** The verb [%02x] applied to a [uint8]: two digits, zero-padded. *)
Definition fmt_02x (n : Z) : string :=
  String (hex_digit (n / 16)) (String (hex_digit (n mod 16)) EmptyString).

(** [func (col Color) Hex() string] *)
Definition Color_Hex (col : Color) : string :=
  let '(r, g, b) := RGB255 col in
  String "#"%char (fmt_02x r ++ fmt_02x g ++ fmt_02x b)%string.

(** ** Facts about the model of [math] *)

Section MathFacts.

Lemma ltb_true (x y : R) : x < y -> (x <? y) = true.
Proof. intros H. unfold ltb. destruct (Rlt_dec x y); [reflexivity | contradiction]. Qed.

Lemma ltb_false (x y : R) : y <= x -> (x <? y) = false.
Proof. intros H. unfold ltb. destruct (Rlt_dec x y); [lra | reflexivity]. Qed.

Lemma leb_true (x y : R) : x <= y -> (x <=? y) = true.
Proof. intros H. unfold leb. destruct (Rle_dec x y); [reflexivity | contradiction]. Qed.

Lemma leb_false (x y : R) : y < x -> (x <=? y) = false.
Proof. intros H. unfold leb. destruct (Rle_dec x y); [lra | reflexivity]. Qed.

Lemma eqb_true (x y : R) : x = y -> (x =? y) = true.
Proof. intros H. unfold eqb. destruct (Req_dec_T x y); [reflexivity | contradiction]. Qed.

Lemma eqb_false (x y : R) : x <> y -> (x =? y) = false.
Proof. intros H. unfold eqb. destruct (Req_dec_T x y); [contradiction | reflexivity]. Qed.

Lemma ltb_iff (x y : R) : (x <? y) = true <-> x < y.
Proof. unfold ltb. destruct (Rlt_dec x y); split; intros; auto; discriminate. Qed.

Lemma leb_iff (x y : R) : (x <=? y) = true <-> x <= y.
Proof. unfold leb. destruct (Rle_dec x y); split; intros; auto; discriminate. Qed.

Lemma eqb_iff (x y : R) : (x =? y) = true <-> x = y.
Proof. unfold eqb. destruct (Req_dec_T x y); split; intros; auto; discriminate. Qed.

Lemma triple_eq (a b c a' b' c' : R) :
  a = a' -> b = b' -> c = c' -> (a, b, c) = (a', b', c').
Proof. intros -> -> ->. reflexivity. Qed.

Lemma color_eq (r g b r' g' b' : R) :
  r = r' -> g = g' -> b = b' -> mkColor r g b = mkColor r' g' b'.
Proof. intros -> -> ->. reflexivity. Qed.

(** [Mod] on a non-negative dividend: the quotient [k] and the remainder
    [r] determine the result. *)
Lemma Mod_nonneg_eq (x y r : R) (k : Z) :
  0 < y -> 0 <= r < y -> x = IZR k * y + r -> (0 <= k)%Z -> Mod x y = r.
Proof.
  intros Hy Hr Hx Hk. unfold Mod.
  assert (Hk' : 0 <= IZR k) by (apply IZR_le; exact Hk).
  assert (Hx0 : 0 <= x) by nra.
  destruct (Rlt_dec x 0) as [Hneg | _]; [lra |].
  rewrite (Rabs_pos_eq x Hx0), (Rabs_pos_eq y) by lra.
  assert (Hq : x / y = IZR k + r / y) by (subst x; field; lra).
  assert (Hfr : 0 <= r / y < 1).
  { split.
    - apply Rmult_le_pos; [lra | left; apply Rinv_0_lt_compat; exact Hy].
    - apply (Rmult_lt_reg_r y); [exact Hy |].
      unfold Rdiv. rewrite Rmult_assoc, Rinv_l by lra. lra. }
  rewrite <- (Int_part_spec (x / y) k) by lra.
  lra.
Qed.

(** [Mod] on a negative dividend mirrors the positive case. *)
Lemma Mod_neg_eq (x y r : R) (k : Z) :
  0 < y -> 0 < r < y -> - x = IZR k * y + r -> (0 <= k)%Z -> Mod x y = - r.
Proof.
  intros Hy Hr Hx Hk. unfold Mod.
  assert (Hk' : 0 <= IZR k) by (apply IZR_le; exact Hk).
  assert (Hx0 : x < 0) by nra.
  destruct (Rlt_dec x 0) as [_ | Hpos]; [| lra].
  rewrite (Rabs_left x Hx0), (Rabs_pos_eq y) by lra.
  assert (Hq : - x / y = IZR k + r / y) by (rewrite Hx; field; lra).
  assert (Hfr : 0 <= r / y < 1).
  { split.
    - apply Rmult_le_pos; [lra | left; apply Rinv_0_lt_compat; exact Hy].
    - apply (Rmult_lt_reg_r y); [exact Hy |].
      unfold Rdiv. rewrite Rmult_assoc, Rinv_l by lra. lra. }
  rewrite <- (Int_part_spec (- x / y) k) by lra.
  lra.
Qed.

(** A remainder by a positive modulus of a non-negative number lies in
    [[0, y)] and differs from the dividend by a multiple of the modulus. *)
Lemma Mod_nonneg_spec (x y : R) :
  0 <= x -> 0 < y ->
  0 <= Mod x y < y /\ exists k : Z, (0 <= k)%Z /\ x = IZR k * y + Mod x y.
Proof.
  intros Hx Hy.
  pose (k := Int_part (x / y)).
  destruct (base_Int_part (x / y)) as [Hk1 Hk2]. fold k in Hk1, Hk2.
  assert (Hxy : x = x / y * y) by (field; lra).
  assert (Hr : 0 <= x - IZR k * y < y) by nra.
  assert (Hk : (0 <= k)%Z).
  { apply le_IZR. apply Rnot_lt_le. intros Hlt.
    assert (IZR k <= -1) by (apply IZR_le; apply lt_IZR in Hlt; lia).
    assert (0 <= x / y) by (apply Rmult_le_pos; [lra | left; apply Rinv_0_lt_compat; lra]).
    lra. }
  rewrite (Mod_nonneg_eq x y (x - IZR k * y) k Hy Hr) by (lra || exact Hk).
  split; [exact Hr | exists k; split; [exact Hk | lra]].
Qed.

(** For any dividend the remainder stays strictly inside [(-y, y)] and is
    congruent to the dividend. *)
Lemma Mod_spec (x y : R) :
  0 < y -> - y < Mod x y < y /\ exists k : Z, x = IZR k * y + Mod x y.
Proof.
  intros Hy. destruct (Rlt_dec x 0) as [Hneg | Hpos].
  - assert (Hm : Mod x y = - Mod (- x) y).
    { unfold Mod. destruct (Rlt_dec x 0); [| lra].
      destruct (Rlt_dec (- x) 0); [lra |]. rewrite Rabs_Ropp. reflexivity. }
    destruct (Mod_nonneg_spec (- x) y) as [Hr [k [Hk Hx]]]; [lra | lra |].
    rewrite Hm. split; [lra |].
    exists (- k)%Z. rewrite opp_IZR. lra.
  - destruct (Mod_nonneg_spec x y) as [Hr [k [Hk Hx]]]; [lra | lra |].
    split; [lra | exists k; exact Hx].
Qed.

End MathFacts.

(** Decide the comparisons of the goal whose operands [lra] can order. *)
Ltac cmp_step :=
  match goal with
  | |- context [ltb ?a ?b] =>
      first [rewrite (ltb_true a b) by lra | rewrite (ltb_false a b) by lra]
  | |- context [leb ?a ?b] =>
      first [rewrite (leb_true a b) by lra | rewrite (leb_false a b) by lra]
  | |- context [eqb ?a ?b] =>
      first [rewrite (eqb_true a b) by lra | rewrite (eqb_false a b) by lra]
  end.

Ltac cmp := unfold neqb; repeat (cmp_step; cbn [andb orb negb]).

(** ** Hue interpolation *)

Section InterpAngle.

Lemma angle_delta_range (a0 a1 : R) : -180 <= angle_delta a0 a1 < 180.
Proof.
  unfold angle_delta.
  destruct (Mod_spec (a1 - a0) 360) as [Hr _]; [lra |].
  destruct (Mod_nonneg_spec (Mod (a1 - a0) 360 + 540) 360) as [Hr2 _]; lra.
Qed.

Lemma angle_delta_congr (a0 a1 : R) :
  exists k : Z, angle_delta a0 a1 = a1 - a0 + IZR k * 360.
Proof.
  unfold angle_delta.
  destruct (Mod_spec (a1 - a0) 360) as [Hr [k1 Hk1]]; [lra |].
  destruct (Mod_nonneg_spec (Mod (a1 - a0) 360 + 540) 360)
    as [Hr2 [k2 [_ Hk2]]]; [lra | lra |].
  exists (1 - k1 - k2)%Z. rewrite !minus_IZR. lra.
Qed.

Lemma interp_angle_range (a0 a1 t : R) :
  0 <= a0 -> 0 <= t <= 1 -> 0 <= interp_angle a0 a1 t < 360.
Proof.
  intros Ha Ht. unfold interp_angle.
  pose proof (angle_delta_range a0 a1) as Hd.
  apply Mod_nonneg_spec; [nra | lra].
Qed.

Lemma interp_angle_congr (a0 a1 t : R) :
  exists k : Z, interp_angle a0 a1 t = a0 + t * angle_delta a0 a1 + IZR k * 360.
Proof.
  unfold interp_angle.
  destruct (Mod_spec (a0 + t * angle_delta a0 a1 + 360) 360) as [_ [k Hk]]; [lra |].
  exists (1 - k)%Z. rewrite minus_IZR. lra.
Qed.

Lemma interp_angle_350_10 : interp_angle 350 10 (1 / 2) = 0.
Proof.
  unfold interp_angle, angle_delta.
  rewrite (Mod_neg_eq (10 - 350) 360 340 0) by (lra || lia).
  rewrite (Mod_nonneg_eq (Ropp 340 + 540) 360 200 0) by (lra || lia).
  apply (Mod_nonneg_eq _ 360 0 2); lra || lia.
Qed.

End InterpAngle.

(** ** The RGB tolerance test *)

Section AlmostEqual.

Lemma AlmostEqualRgb_iff (c1 c2 : Color) :
  AlmostEqualRgb c1 c2 = true <->
  Rabs (chR c1 - chR c2) + Rabs (chG c1 - chG c2) + Rabs (chB c1 - chB c2)
  < 3 * (1 / 255).
Proof. unfold AlmostEqualRgb, Delta. apply ltb_iff. Qed.

(** C7: [AlmostEqualRgb c1 c2] holds exactly when the L1 distance of the
    two colours in RGB is strictly below three times [Delta = 1/255]; a
    colour is almost equal to itself; and two colours that differ by more
    than 1/255 in every channel are not almost equal. *)
Theorem AlmostEqualRgb_spec (c1 c2 : Color) :
  (AlmostEqualRgb c1 c2 = true <->
   Rabs (chR c1 - chR c2) + Rabs (chG c1 - chG c2) + Rabs (chB c1 - chB c2)
   < 3 * (1 / 255))
  /\ Delta = 1 / 255
  /\ AlmostEqualRgb c1 c1 = true
  /\ (1 / 255 < Rabs (chR c1 - chR c2) ->
      1 / 255 < Rabs (chG c1 - chG c2) ->
      1 / 255 < Rabs (chB c1 - chB c2) ->
      AlmostEqualRgb c1 c2 = false).
Proof.
  split; [apply AlmostEqualRgb_iff |].
  split; [reflexivity |].
  split.
  - apply AlmostEqualRgb_iff.
    rewrite !Rminus_diag, Rabs_R0. lra.
  - intros HR HG HB. unfold AlmostEqualRgb, Delta.
    apply ltb_false. lra.
Qed.

Lemma AlmostEqualRgb_spec_witness :
  AlmostEqualRgb (mkColor 0 0 0) (mkColor 1 1 1) = false.
Proof.
  assert (H : 1 / 255 < Rabs (0 - 1)).
  { rewrite Rabs_left by lra. lra. }
  exact (proj2 (proj2 (proj2
           (AlmostEqualRgb_spec (mkColor 0 0 0) (mkColor 1 1 1)))) H H H).
Defined.

End AlmostEqual.

(** ** The degenerate case of xyY *)

Section XyyBlack.

Lemma linearize_0 : linearize 0 = 0.
Proof. unfold linearize. rewrite leb_true by lra. lra. Qed.

Lemma Color_Xyz_black : Color_Xyz (mkColor 0 0 0) = (0, 0, 0).
Proof.
  unfold Color_Xyz, Color_LinearRgb, LinearRgbToXyz. simpl.
  rewrite linearize_0. f_equal; [f_equal |]; lra.
Qed.

Lemma XyzToXyyWhiteRef_degenerate (X Y Z : R) (wref : triple) :
  Rabs (X + Y + Z) < 1e-14 ->
  XyzToXyyWhiteRef (X, Y, Z) wref =
  (fst3 wref / (fst3 wref + snd3 wref + thd3 wref),
   snd3 wref / (fst3 wref + snd3 wref + thd3 wref),
   Y).
Proof.
  intros H. unfold XyzToXyyWhiteRef. rewrite ltb_true by exact H. reflexivity.
Qed.

(** C8: black converts to xyY with the chromaticity of the D65 white
    (x = 0.95047 / 3.0393, about 0.3127, and y = 1 / 3.0393, about 0.3290) and
    Y = 0; and whenever [|X + Y + Z| < 1e-14] the conversion does not divide
    by the channel sum but returns the chromaticity of the reference white,
    with Y passed through. *)
Theorem Xyy_black_uses_white (X Y Z : R) (wref : triple)
  (HN : Rabs (X + Y + Z) < 1e-14) :
  Color_Xyy (mkColor 0 0 0) = (0.95047 / 3.0393, 1 / 3.0393, 0)
  /\ Rabs (fst3 (Color_Xyy (mkColor 0 0 0)) - 0.3127) < 1e-4
  /\ Rabs (snd3 (Color_Xyy (mkColor 0 0 0)) - 0.3290) < 1e-4
  /\ thd3 (Color_Xyy (mkColor 0 0 0)) = 0
  /\ XyzToXyyWhiteRef (X, Y, Z) wref =
     (fst3 wref / (fst3 wref + snd3 wref + thd3 wref),
      snd3 wref / (fst3 wref + snd3 wref + thd3 wref),
      Y).
Proof.
  assert (E : Color_Xyy (mkColor 0 0 0) = (0.95047 / 3.0393, 1 / 3.0393, 0)).
  { unfold Color_Xyy, XyzToXyy. rewrite Color_Xyz_black.
    rewrite XyzToXyyWhiteRef_degenerate
      by (rewrite Rabs_pos_eq; lra).
    unfold D65, fst3, snd3, thd3; simpl.
    apply triple_eq; lra. }
  rewrite E. unfold fst3, snd3, thd3; simpl.
  repeat split; try reflexivity.
  - apply Rabs_def1; lra.
  - apply Rabs_def1; lra.
  - apply XyzToXyyWhiteRef_degenerate; exact HN.
Qed.

Lemma Xyy_black_uses_white_witness :
  XyzToXyyWhiteRef (0, 0, 0) D50 =
  (fst3 D50 / (fst3 D50 + snd3 D50 + thd3 D50),
   snd3 D50 / (fst3 D50 + snd3 D50 + thd3 D50), 0).
Proof.
  assert (HN : Rabs (0 + 0 + 0) < 1e-14) by (rewrite Rabs_pos_eq; lra).
  exact (proj2 (proj2 (proj2 (proj2
           (Xyy_black_uses_white 0 0 0 D50 HN))))).
Defined.

End XyyBlack.

(** ** Hue ranges of the forward conversions *)

Section HueRanges.

Lemma Mod_small (x y : R) : - y < x < y -> Mod x y = x.
Proof.
  intros H. destruct (Rlt_dec x 0) as [Hneg | Hpos].
  - rewrite (Mod_neg_eq x y (- x) 0); lra || lia.
  - apply (Mod_nonneg_eq x y x 0); lra || lia.
Qed.

Lemma quotient_bounds (x c : R) : 0 < c -> - c <= x <= c -> -1 <= x / c <= 1.
Proof.
  intros Hc Hx.
  assert (Hi : 0 < / c) by (apply Rinv_0_lt_compat; exact Hc).
  assert (E : c * / c = 1) by (apply Rinv_r; lra).
  unfold Rdiv. split; nra.
Qed.

Lemma Rmax3_cases (r g b : R) :
  let v := Rmax (Rmax r g) b in
  r <= v /\ g <= v /\ b <= v /\ (v = r \/ v = g \/ v = b).
Proof.
  simpl. unfold Rmax. repeat destruct Rle_dec; repeat split; try lra; auto.
Qed.

Lemma Rmin3_cases (r g b : R) :
  let m := Rmin (Rmin r g) b in
  m <= r /\ m <= g /\ m <= b /\ (m = r \/ m = g \/ m = b).
Proof.
  simpl. unfold Rmin. repeat destruct Rle_dec; repeat split; try lra; auto.
Qed.

(** The hue [Color.Hsv] returns lies in [[0, 360)], for every colour. *)
Lemma Color_Hsv_hue_range (c : Color) : 0 <= fst3 (Color_Hsv c) < 360.
Proof.
  destruct c as [r g b]. unfold Color_Hsv, fst3; simpl.
  destruct (Rmax3_cases r g b) as (Hr & Hg & Hb & Hv).
  destruct (Rmin3_cases r g b) as (Hr' & Hg' & Hb' & _).
  set (mn := Rmin (Rmin r g) b) in *. set (v := Rmax (Rmax r g) b) in *.
  unfold neqb.
  destruct (Req_dec_T mn v) as [E | NE];
    [rewrite (eqb_true _ _ E); simpl; lra | rewrite (eqb_false _ _ NE); simpl].
  assert (HC : 0 < v - mn) by lra.
  pose proof (quotient_bounds (g - b) (v - mn) HC) as Q1.
  pose proof (quotient_bounds (b - r) (v - mn) HC) as Q2.
  pose proof (quotient_bounds (r - g) (v - mn) HC) as Q3.
  set (q1 := (g - b) / (v - mn)) in *.
  set (q2 := (b - r) / (v - mn)) in *.
  set (q3 := (r - g) / (v - mn)) in *.
  assert (B1 : -1 <= q1 <= 1) by (apply Q1; lra).
  assert (B2 : -1 <= q2 <= 1) by (apply Q2; lra).
  assert (B3 : -1 <= q3 <= 1) by (apply Q3; lra).
  rewrite (Mod_small q1 6) by lra.
  destruct (Req_dec_T v b) as [Eb | Nb];
    [rewrite (eqb_true _ _ Eb) | rewrite (eqb_false _ _ Nb)].
  { unfold ltb. destruct Rlt_dec; lra. }
  destruct (Req_dec_T v g) as [Eg | Ng];
    [rewrite (eqb_true _ _ Eg) | rewrite (eqb_false _ _ Ng)].
  { unfold ltb. destruct Rlt_dec; lra. }
  destruct (Req_dec_T v r) as [Er | Nr];
    [rewrite (eqb_true _ _ Er) | rewrite (eqb_false _ _ Nr)].
  { unfold ltb. destruct Rlt_dec; lra. }
  exfalso; tauto.
Qed.

Lemma Atan2_range (y x : R) : - PI < Atan2 y x <= PI.
Proof.
  pose proof PI_RGT_0 as Hpi.
  pose proof (atan_bound (y / x)) as Hb.
  unfold Atan2.
  destruct (Rlt_dec 0 x) as [Hx | Hx]; [lra |].
  destruct (Rlt_dec x 0) as [Hx' | Hx'].
  - assert (Hi : / x < 0) by (apply Rinv_lt_0_compat; exact Hx').
    destruct (Rle_dec 0 y) as [Hy | Hy].
    + assert (Hq : y / x <= 0) by (unfold Rdiv; nra).
      assert (atan (y / x) <= 0).
      { destruct Hq as [Hq | Hq].
        - left. rewrite <- atan_0. apply atan_increasing. exact Hq.
        - rewrite Hq, atan_0. lra. }
      lra.
    + assert (Hq : 0 < y / x) by (unfold Rdiv; nra).
      assert (0 < atan (y / x)).
      { rewrite <- atan_0. apply atan_increasing. exact Hq. }
      lra.
  - destruct (Rlt_dec 0 y); [lra |].
    destruct (Rlt_dec y 0); lra.
Qed.

(** The hue formula shared by [LabToHcl] and [LuvToLuvLCh]. *)
Lemma polar_hue_range (y x : R) :
  0 <= Mod (Rad2Deg * Atan2 y x + 360) 360 < 360.
Proof.
  pose proof (Atan2_range y x) as Ha. pose proof PI_4 as H4.
  apply Mod_nonneg_spec; [| lra].
  unfold Rad2Deg. nra.
Qed.

Lemma LabToHcl_hue_range (p : triple) : 0 <= fst3 (LabToHcl p) < 360.
Proof.
  destruct p as [[L a] b]. unfold LabToHcl, fst3; simpl.
  destruct (_ && _); [apply polar_hue_range | lra].
Qed.

Lemma LuvToLuvLCh_hue_range (p : triple) : 0 <= thd3 (LuvToLuvLCh p) < 360.
Proof.
  destruct p as [[L u] v]. unfold LuvToLuvLCh, thd3; simpl.
  destruct (_ && _); [apply polar_hue_range | lra].
Qed.

Lemma BlendHsv_hue_range (c1 c2 : Color) (t : R) :
  0 <= t <= 1 -> 0 <= fst3 (BlendHsv_coords c1 c2 t) < 360.
Proof.
  intros Ht. unfold BlendHsv_coords.
  pose proof (Color_Hsv_hue_range c1) as H1.
  pose proof (Color_Hsv_hue_range c2) as H2.
  destruct (Color_Hsv c1) as [[h1 s1] v1], (Color_Hsv c2) as [[h2 s2] v2].
  unfold fst3 in *; simpl in *.
  destruct (_ && _); [apply interp_angle_range; lra |].
  destruct (_ && _); apply interp_angle_range; lra.
Qed.

Lemma BlendHcl_hue_range (c1 c2 : Color) (t : R) :
  0 <= t <= 1 -> 0 <= fst3 (BlendHcl_coords c1 c2 t) < 360.
Proof.
  intros Ht. unfold BlendHcl_coords, Color_Hcl, Color_HclWhiteRef.
  pose proof (LabToHcl_hue_range (Color_LabWhiteRef c1 D65)) as H1.
  pose proof (LabToHcl_hue_range (Color_LabWhiteRef c2 D65)) as H2.
  destruct (LabToHcl (Color_LabWhiteRef c1 D65)) as [[h1 k1] l1].
  destruct (LabToHcl (Color_LabWhiteRef c2 D65)) as [[h2 k2] l2].
  unfold fst3 in *; simpl in *.
  destruct (_ && _); [apply interp_angle_range; lra |].
  destruct (_ && _); apply interp_angle_range; lra.
Qed.

Lemma BlendLuvLCh_hue_range (c1 c2 : Color) (t : R) :
  0 <= t <= 1 -> 0 <= thd3 (BlendLuvLCh_coords c1 c2 t) < 360.
Proof.
  intros Ht. unfold BlendLuvLCh_coords, Color_LuvLCh, Color_LuvLChWhiteRef.
  pose proof (LuvToLuvLCh_hue_range (Color_LuvWhiteRef c1 D65)) as H1.
  destruct (LuvToLuvLCh (Color_LuvWhiteRef c1 D65)) as [[l1 k1] h1].
  destruct (LuvToLuvLCh (Color_LuvWhiteRef c2 D65)) as [[l2 k2] h2].
  unfold thd3 in *; simpl in *.
  apply interp_angle_range; lra.
Qed.

End HueRanges.

(** ** The claims about hue interpolation *)

Section InterpClaims.

(** C9: [interp_angle] computes the signed arc
    [delta = ((a1 - a0) mod 360 + 540) mod 360 - 180], which lies in
    [[-180, 180)] and is congruent to [a1 - a0] modulo 360 (the shortest way
    round), adds [t * delta] to [a0] and reduces the sum modulo 360 into
    [[0, 360)]; from 350 to 10 degrees the midpoint is 0 degrees. *)
Theorem interp_angle_shortest_path (a0 a1 t : R)
  (Ha0 : 0 <= a0) (Ht : 0 <= t <= 1) :
  let delta := Mod (Mod (a1 - a0) 360 + 540) 360 - 180 in
  interp_angle a0 a1 t = Mod (a0 + t * delta + 360) 360
  /\ -180 <= delta < 180
  /\ (exists k : Z, delta = a1 - a0 + IZR k * 360)
  /\ 0 <= interp_angle a0 a1 t < 360
  /\ (exists k : Z, interp_angle a0 a1 t = a0 + t * delta + IZR k * 360)
  /\ interp_angle 350 10 (1 / 2) = 0.
Proof.
  intros delta.
  split; [reflexivity |].
  split; [apply (angle_delta_range a0 a1) |].
  split; [apply (angle_delta_congr a0 a1) |].
  split; [apply interp_angle_range; assumption |].
  split; [apply (interp_angle_congr a0 a1 t) |].
  apply interp_angle_350_10.
Qed.

Lemma interp_angle_shortest_path_witness :
  0 <= interp_angle 350 10 (1 / 2) < 360.
Proof.
  assert (Ha0 : 0 <= 350) by lra.
  assert (Ht : 0 <= 1 / 2 <= 1) by lra.
  exact (proj1 (proj2 (proj2 (proj2
           (interp_angle_shortest_path 350 10 (1 / 2) Ha0 Ht))))).
Defined.

(** C10: for angles [a0], [a1] in [[0, 360]] and [t] in [[0, 1]] the result
    of [interp_angle] lies in [[0, 360)]; the forward conversions return
    hues in [[0, 360)], so the hue that [BlendHsv], [BlendHcl] and
    [BlendLuvLCh] pass to the inverse conversion is in range. *)
Theorem interp_angle_in_range (a0 a1 t : R) (c1 c2 : Color)
  (Ha0 : 0 <= a0 <= 360) (Ha1 : 0 <= a1 <= 360) (Ht : 0 <= t <= 1) :
  0 <= interp_angle a0 a1 t < 360
  /\ 0 <= fst3 (Color_Hsv c1) < 360
  /\ 0 <= fst3 (Color_Hcl c1) < 360
  /\ 0 <= thd3 (Color_LuvLCh c1) < 360
  /\ 0 <= fst3 (BlendHsv_coords c1 c2 t) < 360
  /\ 0 <= fst3 (BlendHcl_coords c1 c2 t) < 360
  /\ 0 <= thd3 (BlendLuvLCh_coords c1 c2 t) < 360.
Proof.
  split; [apply interp_angle_range; lra |].
  split; [apply Color_Hsv_hue_range |].
  split; [apply LabToHcl_hue_range |].
  split; [apply LuvToLuvLCh_hue_range |].
  split; [apply BlendHsv_hue_range; exact Ht |].
  split; [apply BlendHcl_hue_range; exact Ht |].
  apply BlendLuvLCh_hue_range; exact Ht.
Qed.

Lemma interp_angle_in_range_witness :
  0 <= interp_angle 360 0 1 < 360.
Proof.
  assert (Ha0 : 0 <= 360 <= 360) by lra.
  assert (Ha1 : 0 <= 0 <= 360) by lra.
  assert (Ht : 0 <= 1 <= 1) by lra.
  exact (proj1 (interp_angle_in_range 360 0 1 (mkColor 1 0 0) (mkColor 0 0 1)
                  Ha0 Ha1 Ht)).
Defined.

End InterpClaims.

(** ** Hue arguments outside [[0, 360)] *)

Section HueWrapping.

(** Outside the six sectors [Hsv] returns the grey of value [V - V * S]. *)
Lemma Hsv_out_of_range (H S V : R) :
  H < 0 \/ 360 <= H ->
  Hsv H S V = mkColor (V - V * S) (V - V * S) (V - V * S).
Proof.
  intros HH. unfold Hsv. cbv zeta.
  assert (E : forall a b, 0 <= a -> b <= 6 ->
                ((a <=? H / 60) && (H / 60 <? b)) = false).
  { intros a b Ha Hb. destruct HH as [Hneg | Hbig].
    - rewrite leb_false by lra. reflexivity.
    - rewrite (ltb_false (H / 60) b) by lra. apply andb_false_r. }
  rewrite !E by lra. apply color_eq; lra.
Qed.








End HueWrapping.

(** ** The sRGB transfer function and its inverse *)

Section Linearization.

Lemma Pow_pos (x y : R) : 0 < x -> Pow x y = Rpower x y.
Proof. intros H. unfold Pow. destruct (Rlt_dec 0 x); [reflexivity | contradiction]. Qed.

Lemma Rpower_pos (x y : R) : 0 < Rpower x y.
Proof. unfold Rpower. apply exp_pos. Qed.

(** The exponent 2.4 is 12/5: a fifth power on one side is a twelfth power
    on the other. *)
Lemma Rpower_24_pow5 (u : R) : 0 < u -> Rpower u 2.4 ^ 5 = u ^ 12.
Proof.
  intros Hu.
  rewrite <- (Rpower_pow 5) by apply Rpower_pos.
  rewrite Rpower_mult.
  replace (2.4 * INR 5) with (INR 12) by (simpl; lra).
  apply Rpower_pow; exact Hu.
Qed.

Lemma Rpower_inv24_pow12 (v : R) : 0 < v -> Rpower v (1 / 2.4) ^ 12 = v ^ 5.
Proof.
  intros Hv.
  rewrite <- (Rpower_pow 12) by apply Rpower_pos.
  rewrite Rpower_mult.
  replace (1 / 2.4 * INR 12) with (INR 5) by (simpl; lra).
  apply Rpower_pow; exact Hv.
Qed.

Lemma Rpower_24_inv (u : R) : 0 < u -> Rpower (Rpower u 2.4) (1 / 2.4) = u.
Proof.
  intros Hu. rewrite Rpower_mult.
  replace (2.4 * (1 / 2.4)) with 1 by lra.
  apply Rpower_1; exact Hu.
Qed.

Lemma Rpower_inv24_24 (v : R) : 0 < v -> Rpower (Rpower v (1 / 2.4)) 2.4 = v.
Proof.
  intros Hv. rewrite Rpower_mult.
  replace (1 / 2.4 * 2.4) with 1 by lra.
  apply Rpower_1; exact Hv.
Qed.

Lemma linearize_low (v : R) : v <= 0.04045 -> linearize v = v / 12.92.
Proof. intros H. unfold linearize. rewrite leb_true by exact H. reflexivity. Qed.

Lemma linearize_high (v : R) :
  0.04045 < v -> linearize v = Rpower ((v + 0.055) / 1.055) 2.4.
Proof.
  intros H. unfold linearize. rewrite leb_false by exact H.
  apply Pow_pos. lra.
Qed.

Lemma delinearize_low (v : R) : v <= 0.0031308 -> delinearize v = 12.92 * v.
Proof. intros H. unfold delinearize. rewrite leb_true by exact H. reflexivity. Qed.

Lemma delinearize_high (v : R) :
  0.0031308 < v -> delinearize v = 1.055 * Rpower v (1 / 2.4) - 0.055.
Proof.
  intros H. unfold delinearize. rewrite leb_false by exact H.
  rewrite Pow_pos by lra. reflexivity.
Qed.

(** The power branch of [linearize] starts above the threshold of
    [delinearize]: [(0.09545 / 1.055) ^ 2.4 > 0.0031308]. *)
Lemma linearize_high_above (v : R) : 0.04045 < v -> 0.0031308 < linearize v.
Proof.
  intros H. rewrite linearize_high by exact H.
  set (u := (v + 0.055) / 1.055).
  assert (Hu : 0.09545 / 1.055 < u) by (unfold u; lra).
  apply Rnot_le_lt. intros Hle.
  assert (H5 : Rpower u 2.4 ^ 5 <= 0.0031308 ^ 5).
  { apply pow_incr. split; [left; apply Rpower_pos | exact Hle]. }
  rewrite Rpower_24_pow5 in H5 by lra.
  assert (H12 : (0.09545 / 1.055) ^ 12 <= u ^ 12).
  { apply pow_incr. lra. }
  assert (Hnum : 0.0031308 ^ 5 < (0.09545 / 1.055) ^ 12) by lra.
  lra.
Qed.

(** From 0.0031309 on, [delinearize] lands above the threshold of
    [linearize]. *)
Lemma delinearize_high_above (v : R) : 0.0031309 <= v -> 0.04045 < delinearize v.
Proof.
  intros H. rewrite delinearize_high by lra.
  set (w := Rpower v (1 / 2.4)).
  apply Rnot_le_lt. intros Hle.
  assert (Hw : w <= 0.09545 / 1.055) by lra.
  assert (H12 : w ^ 12 <= (0.09545 / 1.055) ^ 12).
  { apply pow_incr. split; [left; apply Rpower_pos | exact Hw]. }
  unfold w in H12. rewrite Rpower_inv24_pow12 in H12 by lra.
  assert (H5 : 0.0031309 ^ 5 <= v ^ 5).
  { apply pow_incr. lra. }
  assert (Hnum : (0.09545 / 1.055) ^ 12 < 0.0031309 ^ 5) by lra.
  lra.
Qed.

Lemma delinearize_linearize (v : R) :
  v <= 0.040449936 \/ 0.04045 < v -> delinearize (linearize v) = v.
Proof.
  intros [Hlo | Hhi].
  - rewrite linearize_low by lra. rewrite delinearize_low by lra. lra.
  - pose proof (linearize_high_above v Hhi) as Ha.
    rewrite delinearize_high by exact Ha.
    rewrite linearize_high by exact Hhi.
    rewrite Rpower_24_inv by lra. lra.
Qed.

Lemma linearize_delinearize (w : R) :
  w <= 0.0031308 \/ (0.0031308 < w /\ 0.04045 < delinearize w) ->
  linearize (delinearize w) = w.
Proof.
  intros [Hlo | [Hw Hhi]].
  - rewrite delinearize_low by lra. rewrite linearize_low by lra. lra.
  - rewrite linearize_high by exact Hhi.
    rewrite delinearize_high by exact Hw.
    replace ((1.055 * Rpower w (1 / 2.4) - 0.055 + 0.055) / 1.055)
      with (Rpower w (1 / 2.4)) by lra.
    apply Rpower_inv24_24. lra.
Qed.

(** C5, as the code has it: [linearize] and [delinearize] are the stated
    piecewise functions and undo each other except in the narrow band between
    the two thresholds, which do not match exactly
    (12.92 * 0.0031308 = 0.040449936 < 0.04045):
    [delinearize (linearize v) = v] for [v <= 0.040449936] and for
    [v > 0.04045]; [linearize (delinearize w) = w] for [w <= 0.0031308] and
    for every [w > 0.0031308] that [delinearize] sends above 0.04045, which
    holds from [w = 0.0031309] on. *)
Theorem delinearize_inverts_linearize (v w : R)
  (Hv : v <= 0.040449936 \/ 0.04045 < v)
  (Hw : w <= 0.0031308 \/ 0.0031309 <= w) :
  delinearize (linearize v) = v
  /\ linearize (delinearize w) = w
  /\ (v <= 0.04045 -> linearize v = v / 12.92)
  /\ (0.04045 < v -> linearize v = Rpower ((v + 0.055) / 1.055) 2.4)
  /\ (w <= 0.0031308 -> delinearize w = 12.92 * w)
  /\ (0.0031308 < w -> delinearize w = 1.055 * Rpower w (1 / 2.4) - 0.055).
Proof.
  split; [apply delinearize_linearize; exact Hv |].
  split.
  - apply linearize_delinearize. destruct Hw as [Hlo | Hhi]; [left; exact Hlo |].
    right. split; [lra | apply delinearize_high_above; exact Hhi].
  - repeat split.
    + apply linearize_low.
    + apply linearize_high.
    + apply delinearize_low.
    + apply delinearize_high.
Qed.

Lemma delinearize_inverts_linearize_witness :
  delinearize (linearize (1 / 2)) = 1 / 2
  /\ linearize (delinearize (1 / 2)) = 1 / 2.
Proof.
  assert (Hv : 1 / 2 <= 0.040449936 \/ 0.04045 < 1 / 2) by (right; lra).
  assert (Hw : 1 / 2 <= 0.0031308 \/ 0.0031309 <= 1 / 2) by (right; lra).
  destruct (delinearize_inverts_linearize (1 / 2) (1 / 2) Hv Hw) as (E1 & E2 & _).
  split; [exact E1 | exact E2].
Defined.

(** C5 fails as stated at the threshold of [linearize]: 0.04045 is sent to
    0.04045 / 12.92, which lies above 0.0031308, so [delinearize] answers with
    its power branch and the result is not 0.04045. *)
Lemma delinearize_linearize_threshold :
  0 <= 0.04045 <= 1
  /\ linearize 0.04045 = 0.04045 / 12.92
  /\ delinearize (linearize 0.04045) <> 0.04045.
Proof.
  split; [lra |].
  assert (E : linearize 0.04045 = 0.04045 / 12.92) by (apply linearize_low; lra).
  split; [exact E |].
  rewrite E, delinearize_high by lra.
  intros Heq.
  assert (Hp : Rpower (0.04045 / 12.92) (1 / 2.4) = 0.09545 / 1.055) by lra.
  pose proof (Rpower_inv24_pow12 (0.04045 / 12.92)) as H12.
  rewrite Hp in H12.
  assert (Hnum : (0.04045 / 12.92) ^ 5 < (0.09545 / 1.055) ^ 12) by lra.
  lra.
Qed.

End Linearization.

(** ** Distance metrics *)

Section Distances.

Lemma ciede2000_dhp_swap (P h1 h2 : R) :
  ciede2000_dhp P h2 h1 = - ciede2000_dhp P h1 h2.
Proof.
  unfold ciede2000_dhp. destruct (P !=? 0); [| lra]. cbv zeta.
  unfold ltb. repeat destruct Rlt_dec; lra.
Qed.

Lemma ciede2000_hpmean_swap (P h1 h2 : R) :
  ciede2000_hpmean P h2 h1 = ciede2000_hpmean P h1 h2.
Proof.
  unfold ciede2000_hpmean. cbv zeta.
  rewrite (Rabs_minus_sym h2 h1), (Rplus_comm h2 h1). reflexivity.
Qed.

Lemma DistanceCIEDE2000klch_sym (cl cr : Color) (kl kc kh : R) :
  DistanceCIEDE2000klch cl cr kl kc kh = DistanceCIEDE2000klch cr cl kl kc kh.
Proof.
  unfold DistanceCIEDE2000klch.
  destruct (Color_Lab cl) as [[l1 a1] b1], (Color_Lab cr) as [[l2 a2] b2].
  cbv zeta beta iota.
  set (cab1 := sqrt (sq (a1 * 100) + sq (b1 * 100))).
  set (cab2 := sqrt (sq (a2 * 100) + sq (b2 * 100))).
  replace ((cab2 + cab1) / 2) with ((cab1 + cab2) / 2) by lra.
  set (g := 0.5 * (1 - sqrt (Pow ((cab1 + cab2) / 2) 7
                             / (Pow ((cab1 + cab2) / 2) 7 + Pow 25 7)))).
  set (ap1 := (1 + g) * (a1 * 100)). set (ap2 := (1 + g) * (a2 * 100)).
  set (cp1 := sqrt (sq ap1 + sq (b1 * 100))).
  set (cp2 := sqrt (sq ap2 + sq (b2 * 100))).
  set (hp1 := ciede2000_hp (b1 * 100) ap1).
  set (hp2 := ciede2000_hp (b2 * 100) ap2).
  replace (cp2 * cp1) with (cp1 * cp2) by ring.
  replace ((cp2 + cp1) / 2) with ((cp1 + cp2) / 2) by lra.
  replace ((l2 * 100 + l1 * 100) / 2) with ((l1 * 100 + l2 * 100) / 2) by lra.
  rewrite (ciede2000_dhp_swap (cp1 * cp2) hp1 hp2).
  rewrite (ciede2000_hpmean_swap (cp1 * cp2) hp1 hp2).
  set (hm := ciede2000_hpmean (cp1 * cp2) hp1 hp2).
  set (d := ciede2000_dhp (cp1 * cp2) hp1 hp2).
  replace (- d / 2 * PI / 180) with (- (d / 2 * PI / 180))
    by (unfold Rdiv; ring).
  rewrite sin_neg.
  set (sd := sin (d / 2 * PI / 180)).
  set (rt := - sin (2 * (30 * exp (- sq ((hm - 275) / 25))) * PI / 180)
             * (2 * sqrt (Pow ((cp1 + cp2) / 2) 7
                          / (Pow ((cp1 + cp2) / 2) 7 + Pow 25 7)))).
  f_equal. f_equal. unfold sq, Rdiv. ring.
Qed.





Lemma sqrt_of_zero (x : R) : x = 0 -> sqrt x = 0.
Proof. intros ->. apply sqrt_0. Qed.

Lemma DistanceRgb_refl (c : Color) : DistanceRgb c c = 0.
Proof. unfold DistanceRgb. apply sqrt_of_zero. unfold sq. ring. Qed.


Lemma DistanceRiemersma_refl (c : Color) : DistanceRiemersma c c = 0.
Proof.
  unfold DistanceRiemersma. cbv zeta. apply sqrt_of_zero. unfold Rdiv. ring.
Qed.



Lemma ciede2000_dhp_same (P h : R) : ciede2000_dhp P h h = 0.
Proof.
  unfold ciede2000_dhp. destruct (P !=? 0); [| reflexivity]. cbv zeta.
  rewrite Rminus_diag. cmp. reflexivity.
Qed.

Lemma DistanceCIEDE2000klch_refl (c : Color) (kl kc kh : R) :
  DistanceCIEDE2000klch c c kl kc kh = 0.
Proof.
  unfold DistanceCIEDE2000klch. destruct (Color_Lab c) as [[l a] b].
  cbv zeta beta iota.
  rewrite ciede2000_dhp_same.
  replace (0 / 2 * PI / 180) with 0 by (unfold Rdiv; ring).
  rewrite sin_0.
  rewrite sqrt_of_zero; [lra |]. unfold sq, Rdiv. ring.
Qed.

Lemma IsValid_bounds (c : Color) :
  IsValid c = true ->
  0 <= chR c <= 1 /\ 0 <= chG c <= 1 /\ 0 <= chB c <= 1.
Proof.
  unfold IsValid. rewrite !andb_true_iff, !leb_iff. tauto.
Qed.

(** For valid colours the radicand of [DistanceRiemersma] is not negative,
    so the square root is taken inside its domain. *)
Lemma DistanceRiemersma_radicand (c1 c2 : Color) :
  IsValid c1 = true -> IsValid c2 = true ->
  let rAvg := (chR c1 + chR c2) / 2 in
  let dR := chR c1 - chR c2 in
  let dG := chG c1 - chG c2 in
  let dB := chB c1 - chB c2 in
  0 <= (2 + rAvg) * dR * dR + 4 * dG * dG + (2 + (1 - rAvg)) * dB * dB.
Proof.
  intros H1 H2. apply IsValid_bounds in H1, H2. cbv zeta.
  set (r := (chR c1 + chR c2) / 2).
  assert (Hr : 0 <= r <= 1) by (unfold r; lra).
  pose proof (Rle_0_sqr (chR c1 - chR c2)) as S1.
  pose proof (Rle_0_sqr (chG c1 - chG c2)) as S2.
  pose proof (Rle_0_sqr (chB c1 - chB c2)) as S3.
  unfold Rsqr in *. nra.
Qed.

(** *** CIE94 depends on the order of its arguments *)


Lemma Rpower_base_1 (y : R) : Rpower 1 y = 1.
Proof. unfold Rpower. rewrite ln_1, Rmult_0_r. apply exp_0. Qed.

Lemma linearize_1 : linearize 1 = 1.
Proof.
  rewrite linearize_high by lra.
  replace ((1 + 0.055) / 1.055) with 1 by lra.
  apply Rpower_base_1.
Qed.

Lemma Cbrt_pos_lt (x y : R) : 0 < x < y -> Cbrt x < Cbrt y.
Proof.
  intros H. unfold Cbrt.
  destruct (Rlt_dec 0 x); [| lra]. destruct (Rlt_dec 0 y); [| lra].
  apply Rlt_Rpower_l; lra.
Qed.






End Distances.

(** ** The hue guard of the polar conversions *)

Section HueGuard.

Lemma Color_Xyz_dark_olive :
  Color_Xyz (mkColor 0.036 0.04 0)
  = (0.41239079926595948 * (0.036 / 12.92) + 0.35758433938387796 * (0.04 / 12.92),
     0.21263900587151036 * (0.036 / 12.92) + 0.71516867876775593 * (0.04 / 12.92),
     0.019330818715591851 * (0.036 / 12.92) + 0.11919477979462599 * (0.04 / 12.92)).
Proof.
  unfold Color_Xyz, Color_LinearRgb, LinearRgbToXyz; simpl.
  rewrite !linearize_low by lra. apply triple_eq; lra.
Qed.

Lemma Color_Luv_dark_olive :
  exists l u v,
    Color_Luv (mkColor 0.036 0.04 0) = (l, u, v)
    /\ l = (0.21263900587151036 * (0.036 / 12.92)
            + 0.71516867876775593 * (0.04 / 12.92)) * (24389 / 2700)
    /\ -0.0000125 <= u <= -0.0000124
    /\ 0.0281162 <= v <= 0.0281163.
Proof.
  unfold Color_Luv, XyzToLuv, XyzToLuvWhiteRef. rewrite Color_Xyz_dark_olive.
  unfold xyz_to_uv, D65, fst3, snd3, thd3; simpl. cmp.
  eexists; eexists; eexists. split; [reflexivity |].
  split; [lra |]. split; lra.
Qed.

Lemma sqrt_bounds (x lo hi : R) :
  0 <= lo -> 0 <= hi -> lo * lo <= x <= hi * hi -> lo <= sqrt x <= hi.
Proof.
  intros Hlo Hhi [H1 H2].
  rewrite <- (sqrt_square lo Hlo), <- (sqrt_square hi Hhi).
  split; apply sqrt_le_1_alt; assumption.
Qed.

(** The colour [{0.036, 0.04, 0}] has [u] within 1e-4 of zero, so
    [LuvToLuvLCh] answers with hue 0 although the chroma is 0.028; its
    comment asks for that only when [u] and [v] are both almost zero. *)
Lemma Color_LuvLCh_dark_olive :
  exists l c,
    Color_LuvLCh (mkColor 0.036 0.04 0) = (l, c, 0)
    /\ l = (0.21263900587151036 * (0.036 / 12.92)
            + 0.71516867876775593 * (0.04 / 12.92)) * (24389 / 2700)
    /\ 0.0281162 <= c <= 0.0281164.
Proof.
  destruct Color_Luv_dark_olive as (l & u & v & E & Hl & Hu & Hv).
  unfold Color_LuvLCh, Color_LuvLChWhiteRef.
  change (Color_LuvWhiteRef (mkColor 0.036 0.04 0) D65)
    with (Color_Luv (mkColor 0.036 0.04 0)).
  rewrite E. unfold LuvToLuvLCh.
  rewrite (Rabs_left u) by lra. rewrite (ltb_false 1e-4 (- u)) by lra.
  rewrite andb_false_r.
  exists l, (sqrt (sq u + sq v)). split; [reflexivity |]. split; [exact Hl |].
  apply sqrt_bounds; unfold sq; nra.
Qed.

(** Converting these coordinates back gives a colour with a blue channel
    near 0.0318. *)
Lemma LuvLCh_dark_olive_back (l c : R) :
  l = (0.21263900587151036 * (0.036 / 12.92)
       + 0.71516867876775593 * (0.04 / 12.92)) * (24389 / 2700) ->
  0.0281162 <= c <= 0.0281164 ->
  0.0318 <= chB (LuvLCh (l, c, 0)) <= 0.0319.
Proof.
  intros Hl Hc.
  unfold LuvLCh, LuvLChWhiteRef, LuvLChToLuv, LuvWhiteRef, LuvToXyzWhiteRef.
  rewrite Rmult_0_r, cos_0, sin_0, (Rmult_0_r c), (Rmult_1_r c).
  unfold xyz_to_uv, D65, fst3, snd3, thd3; simpl.
  subst l. cmp.
  unfold Xyz, XyzToLinearRgb, LinearRgb; simpl.
  rewrite delinearize_low by lra. lra.
Qed.

Lemma interp_angle_at_0 (a0 a1 : R) : 0 <= a0 < 360 -> interp_angle a0 a1 0 = a0.
Proof.
  intros Ha. unfold interp_angle. cbv zeta.
  apply (Mod_nonneg_eq _ 360 a0 1); lra || lia.
Qed.

(** At [t = 0] the blend converts the coordinates of its first colour. *)
Lemma BlendLuvLCh_at_0 (c1 c2 : Color) :
  BlendLuvLCh c1 c2 0 = LuvLCh (Color_LuvLCh c1).
Proof.
  unfold BlendLuvLCh, BlendLuvLCh_coords.
  pose proof (LuvToLuvLCh_hue_range (Color_LuvWhiteRef c1 D65)) as H1.
  unfold Color_LuvLCh, Color_LuvLChWhiteRef.
  destruct (LuvToLuvLCh (Color_LuvWhiteRef c1 D65)) as [[l1 k1] h1].
  destruct (LuvToLuvLCh (Color_LuvWhiteRef c2 D65)) as [[l2 k2] h2].
  unfold thd3 in H1; simpl in H1.
  rewrite interp_angle_at_0 by exact H1.
  f_equal. apply triple_eq; lra.
Qed.

(** *** The same guard in [LabToHcl] *)

Lemma Color_Xyz_dark_orange :
  Color_Xyz (mkColor 0.0398 0.026 0)
  = (0.41239079926595948 * (0.0398 / 12.92) + 0.35758433938387796 * (0.026 / 12.92),
     0.21263900587151036 * (0.0398 / 12.92) + 0.71516867876775593 * (0.026 / 12.92),
     0.019330818715591851 * (0.0398 / 12.92) + 0.11919477979462599 * (0.026 / 12.92)).
Proof.
  unfold Color_Xyz, Color_LinearRgb, LinearRgbToXyz; simpl.
  rewrite !linearize_low by lra. apply triple_eq; lra.
Qed.

Lemma Color_Lab_dark_orange :
  exists l a b,
    Color_Lab (mkColor 0.0398 0.026 0) = (l, a, b)
    /\ l = 1.16 * ((0.21263900587151036 * (0.0398 / 12.92)
                    + 0.71516867876775593 * (0.026 / 12.92)) * (841 / 108)
                   + 4 / 29) - 0.16
    /\ -0.000022 <= a <= -0.0000219
    /\ 0.0283329 <= b <= 0.028333.
Proof.
  unfold Color_Lab, XyzToLab, XyzToLabWhiteRef. rewrite Color_Xyz_dark_orange.
  unfold lab_f, D65, fst3, snd3, thd3; simpl. cmp.
  eexists; eexists; eexists. split; [reflexivity |].
  split; [lra |]. split; lra.
Qed.

(** The colour [{0.0398, 0.026, 0}] has [a] within 1e-4 of zero, so
    [LabToHcl] answers with hue 0 although the chroma is 0.028. *)
Lemma Color_Hcl_dark_orange :
  exists c l,
    Color_Hcl (mkColor 0.0398 0.026 0) = (0, c, l)
    /\ l = 1.16 * ((0.21263900587151036 * (0.0398 / 12.92)
                    + 0.71516867876775593 * (0.026 / 12.92)) * (841 / 108)
                   + 4 / 29) - 0.16
    /\ 0.0283329 <= c <= 0.0283331.
Proof.
  destruct Color_Lab_dark_orange as (l & a & b & E & Hl & Ha & Hb).
  unfold Color_Hcl, Color_HclWhiteRef.
  change (Color_LabWhiteRef (mkColor 0.0398 0.026 0) D65)
    with (Color_Lab (mkColor 0.0398 0.026 0)).
  rewrite E. unfold LabToHcl.
  rewrite (Rabs_left a) by lra. rewrite (ltb_false 1e-4 (- a)) by lra.
  rewrite andb_false_r.
  exists (sqrt (sq a + sq b)), l. split; [reflexivity |]. split; [exact Hl |].
  apply sqrt_bounds; unfold sq; nra.
Qed.

Lemma Hcl_dark_orange_back (c l : R) :
  l = 1.16 * ((0.21263900587151036 * (0.0398 / 12.92)
               + 0.71516867876775593 * (0.026 / 12.92)) * (841 / 108)
              + 4 / 29) - 0.16 ->
  0.0283329 <= c <= 0.0283331 ->
  0.0275 <= chB (Hcl (0, c, l)) <= 0.0276.
Proof.
  intros Hl Hc.
  unfold Hcl, HclWhiteRef, HclToLab, LabWhiteRef, LabToXyzWhiteRef.
  rewrite Rmult_0_r, cos_0, sin_0, (Rmult_0_r c), (Rmult_1_r c).
  unfold lab_finv, D65, fst3, snd3, thd3; simpl.
  subst l. cmp.
  unfold Xyz, XyzToLinearRgb, LinearRgb; simpl.
  rewrite delinearize_low by lra. lra.
Qed.

Lemma clamp01_id (v : R) : 0 <= v <= 1 -> clamp01 v = v.
Proof.
  intros H. unfold clamp01. rewrite Rmin_left by lra. apply Rmax_right. lra.
Qed.

(** At [t = 0] [BlendHcl] converts the coordinates of its first colour when
    that colour has a chroma above 0.00015. *)
Lemma BlendHcl_at_0 (c1 c2 : Color) :
  0.00015 < snd3 (Color_Hcl c1) ->
  BlendHcl c1 c2 0 = Clamped (Hcl (Color_Hcl c1)).
Proof.
  intros Hc. unfold BlendHcl, BlendHcl_coords. f_equal. f_equal.
  pose proof (LabToHcl_hue_range (Color_LabWhiteRef c1 D65)) as H1.
  unfold Color_Hcl, Color_HclWhiteRef in *.
  destruct (LabToHcl (Color_LabWhiteRef c1 D65)) as [[h1 k1] l1].
  destruct (LabToHcl (Color_LabWhiteRef c2 D65)) as [[h2 k2] l2].
  unfold fst3, snd3 in *; simpl in *.
  rewrite (leb_false k1 0.00015) by lra. cbn [andb].
  destruct ((k2 <=? 0.00015) && (0.00015 <=? k1));
    rewrite interp_angle_at_0 by exact H1; apply triple_eq; lra.
Qed.

(** C1, at the inputs [Color{0.036, 0.04, 0}] for LuvLCh and
    [Color{0.0398, 0.026, 0}] for HCL, with the D65 white: both colours are
    valid and have a chroma of 0.028, yet their hue comes back as 0 because
    [|u| <= 1e-4], respectively [|a| <= 1e-4]; the round trip returns a blue
    channel above 0.0318, respectively 0.0275, where the colour has 0, far
    outside 1e-4. *)
Theorem polar_roundtrip_loses_hue :
  (IsValid (mkColor 0.036 0.04 0) = true
   /\ thd3 (Color_LuvLCh (mkColor 0.036 0.04 0)) = 0
   /\ 0.028 <= snd3 (Color_LuvLCh (mkColor 0.036 0.04 0))
   /\ 0.0318 <= chB (LuvLCh (Color_LuvLCh (mkColor 0.036 0.04 0)))
                - chB (mkColor 0.036 0.04 0)
   /\ ~ Rabs (chB (LuvLCh (Color_LuvLCh (mkColor 0.036 0.04 0)))
              - chB (mkColor 0.036 0.04 0)) < 1e-4)
  /\ (IsValid (mkColor 0.0398 0.026 0) = true
      /\ fst3 (Color_Hcl (mkColor 0.0398 0.026 0)) = 0
      /\ 0.028 <= snd3 (Color_Hcl (mkColor 0.0398 0.026 0))
      /\ 0.0275 <= chB (Hcl (Color_Hcl (mkColor 0.0398 0.026 0)))
                   - chB (mkColor 0.0398 0.026 0)
      /\ ~ Rabs (chB (Hcl (Color_Hcl (mkColor 0.0398 0.026 0)))
                 - chB (mkColor 0.0398 0.026 0)) < 1e-4).
Proof.
  split.
  - destruct Color_LuvLCh_dark_olive as (l & c & E & Hl & Hc).
    pose proof (LuvLCh_dark_olive_back l c Hl Hc) as Hb.
    rewrite E. unfold thd3, snd3; cbn [fst snd chB].
    split; [unfold IsValid; simpl; cmp; reflexivity |].
    split; [reflexivity |].
    split; [lra |].
    split; [lra |].
    rewrite Rabs_pos_eq by lra. lra.
  - destruct Color_Hcl_dark_orange as (c & l & E & Hl & Hc).
    pose proof (Hcl_dark_orange_back c l Hl Hc) as Hb.
    rewrite E. unfold fst3, snd3; cbn [fst snd chB].
    split; [unfold IsValid; simpl; cmp; reflexivity |].
    split; [reflexivity |].
    split; [lra |].
    split; [lra |].
    rewrite Rabs_pos_eq by lra. lra.
Qed.

(** C4, at the same inputs: [BlendLuvLCh] and [BlendHcl] at [t = 0] do not
    recover their first colour, whatever the second colour is. *)
Theorem polar_blend_at_0_loses_hue (c2 : Color) :
  (0.0318 <= chB (BlendLuvLCh (mkColor 0.036 0.04 0) c2 0)
             - chB (mkColor 0.036 0.04 0)
   /\ ~ Rabs (chB (BlendLuvLCh (mkColor 0.036 0.04 0) c2 0)
              - chB (mkColor 0.036 0.04 0)) < 1e-4)
  /\ (0.0275 <= chB (BlendHcl (mkColor 0.0398 0.026 0) c2 0)
                - chB (mkColor 0.0398 0.026 0)
      /\ ~ Rabs (chB (BlendHcl (mkColor 0.0398 0.026 0) c2 0)
                 - chB (mkColor 0.0398 0.026 0)) < 1e-4).
Proof.
  split.
  - rewrite BlendLuvLCh_at_0.
    destruct Color_LuvLCh_dark_olive as (l & c & E & Hl & Hc).
    pose proof (LuvLCh_dark_olive_back l c Hl Hc) as Hb.
    rewrite E. cbn [chB].
    split; [lra |].
    rewrite Rabs_pos_eq by lra. lra.
  - destruct Color_Hcl_dark_orange as (c & l & E & Hl & Hc).
    pose proof (Hcl_dark_orange_back c l Hl Hc) as Hb.
    rewrite BlendHcl_at_0 by (rewrite E; unfold snd3; simpl; lra).
    rewrite E. unfold Clamped. cbn [chB].
    rewrite clamp01_id by lra.
    split; [lra |].
    rewrite Rabs_pos_eq by lra. lra.
Qed.

(** *** Blending towards a grey endpoint *)

Lemma angle_delta_same (a : R) : angle_delta a a = 0.
Proof.
  unfold angle_delta. rewrite Rminus_diag.
  rewrite (Mod_nonneg_eq 0 360 0 0) by (lra || lia).
  rewrite (Mod_nonneg_eq (0 + 540) 360 180 1) by (lra || lia).
  lra.
Qed.

Lemma interp_angle_same (a t : R) : 0 <= a < 360 -> interp_angle a a t = a.
Proof.
  intros Ha. unfold interp_angle. cbv zeta. rewrite angle_delta_same.
  apply (Mod_nonneg_eq _ 360 a 1); lra || lia.
Qed.

Lemma interp_angle_from_0 (h t : R) :
  0 <= h < 180 -> 0 <= t <= 1 -> interp_angle 0 h t = t * h.
Proof.
  intros Hh Ht. unfold interp_angle, angle_delta. cbv zeta.
  rewrite (Mod_nonneg_eq (h - 0) 360 h 0) by (lra || lia).
  rewrite (Mod_nonneg_eq (h + 540) 360 (h + 180) 1) by (lra || lia).
  apply (Mod_nonneg_eq _ 360 (t * h) 1); try lia; nra.
Qed.

(** [BlendHsv] replaces the hue of an endpoint without saturation by the
    hue of the other endpoint. *)
Lemma BlendHsv_grey_hue (c1 c2 : Color) (t : R) :
  snd3 (Color_Hsv c1) = 0 -> snd3 (Color_Hsv c2) <> 0 ->
  fst3 (BlendHsv_coords c1 c2 t) = fst3 (Color_Hsv c2)
  /\ fst3 (BlendHsv_coords c2 c1 t) = fst3 (Color_Hsv c2).
Proof.
  intros H1 H2. unfold BlendHsv_coords.
  pose proof (Color_Hsv_hue_range c2) as Hr.
  destruct (Color_Hsv c1) as [[h1 s1] v1], (Color_Hsv c2) as [[h2 s2] v2].
  unfold fst3, snd3 in *; simpl in *. subst s1.
  unfold neqb. rewrite (eqb_true 0 0), (eqb_false s2 0) by auto.
  cbn [andb negb fst snd].
  split; apply interp_angle_same; exact Hr.
Qed.

(** [BlendHcl] does the same for an endpoint with a chroma of at most
    0.00015. *)
Lemma BlendHcl_grey_hue (c1 c2 : Color) (t : R) :
  snd3 (Color_Hcl c1) <= 0.00015 -> 0.00015 < snd3 (Color_Hcl c2) ->
  fst3 (BlendHcl_coords c1 c2 t) = fst3 (Color_Hcl c2)
  /\ fst3 (BlendHcl_coords c2 c1 t) = fst3 (Color_Hcl c2).
Proof.
  intros H1 H2. unfold BlendHcl_coords.
  pose proof (LabToHcl_hue_range (Color_LabWhiteRef c2 D65)) as Hr.
  unfold Color_Hcl, Color_HclWhiteRef in *.
  destruct (LabToHcl (Color_LabWhiteRef c1 D65)) as [[h1 k1] l1].
  destruct (LabToHcl (Color_LabWhiteRef c2 D65)) as [[h2 k2] l2].
  unfold fst3, snd3 in *; simpl in *.
  rewrite (leb_true k1 0.00015), (leb_true 0.00015 k2),
    (leb_false k2 0.00015) by lra.
  cbn [andb negb fst snd].
  split; apply interp_angle_same; exact Hr.
Qed.

Lemma Color_LuvLCh_black : Color_LuvLCh (mkColor 0 0 0) = (0, 0, 0).
Proof.
  unfold Color_LuvLCh, Color_LuvLChWhiteRef, Color_LuvWhiteRef.
  rewrite Color_Xyz_black.
  unfold XyzToLuvWhiteRef, xyz_to_uv, D65, fst3, snd3, thd3; simpl. cmp.
  unfold LuvToLuvLCh.
  replace (13 * (0 / 1.00000 * (29 / 3 * 29 / 3 * 29 / 3) / 100)
           * (0 - 4 * 0.95047 / (0.95047 + 15 * 1.00000 + 3 * 1.08883)))
    with 0 by lra.
  replace (13 * (0 / 1.00000 * (29 / 3 * 29 / 3 * 29 / 3) / 100)
           * (0 - 9 * 1.00000 / (0.95047 + 15 * 1.00000 + 3 * 1.08883)))
    with 0 by lra.
  rewrite Rminus_diag, Rabs_R0. cmp.
  apply triple_eq; [lra | apply sqrt_of_zero; unfold sq; ring | reflexivity].
Qed.

Lemma Cbrt_cube (x : R) : 0 < x -> Cbrt (x * x * x) = x.
Proof.
  intros Hx. unfold Cbrt.
  destruct (Rlt_dec 0 (x * x * x)) as [_ | Hn];
    [| exfalso; apply Hn; repeat apply Rmult_lt_0_compat; exact Hx].
  replace (x * x * x) with (x ^ 3) by ring.
  rewrite <- (Rpower_pow 3) by exact Hx.
  rewrite Rpower_mult.
  replace (INR 3 * / 3) with 1 by (simpl; lra).
  apply Rpower_1; exact Hx.
Qed.

Lemma Color_Xyz_red :
  Color_Xyz (mkColor 1 0 0)
  = (0.41239079926595948, 0.21263900587151036, 0.019330818715591851).
Proof.
  unfold Color_Xyz, Color_LinearRgb, LinearRgbToXyz; simpl.
  rewrite linearize_0, linearize_1. apply triple_eq; lra.
Qed.

(** Pure red in L*u*v*: a lightness above 0.072 and [u], [v] positive. *)
Lemma Color_Luv_red :
  exists l u v,
    Color_Luv (mkColor 1 0 0) = (l, u, v)
    /\ 0.2 < u /\ 0 < v /\ 1e-4 < u - v.
Proof.
  unfold Color_Luv, XyzToLuv, XyzToLuvWhiteRef. rewrite Color_Xyz_red.
  unfold xyz_to_uv, D65, fst3, snd3, thd3; simpl. cmp.
  assert (Hc : 0.2 < Cbrt (0.21263900587151036 / 1.00000)).
  { rewrite <- (Cbrt_cube 0.2) at 1 by lra. apply Cbrt_pos_lt. lra. }
  eexists; eexists; eexists. split; [reflexivity |].
  split; [lra |]. split; lra.
Qed.

Lemma Color_LuvLCh_red :
  exists l c h,
    Color_LuvLCh (mkColor 1 0 0) = (l, c, h)
    /\ 0.2 < c /\ 0 < h < 115.
Proof.
  destruct Color_Luv_red as (l & u & v & E & Hu & Hv & Huv).
  unfold Color_LuvLCh, Color_LuvLChWhiteRef.
  change (Color_LuvWhiteRef (mkColor 1 0 0) D65) with (Color_Luv (mkColor 1 0 0)).
  rewrite E. unfold LuvToLuvLCh.
  rewrite (Rabs_left (v - u)), (Rabs_pos_eq u) by lra. cmp.
  assert (Ha : 0 < Atan2 v u < PI / 2).
  { unfold Atan2. destruct (Rlt_dec 0 u); [| lra].
    pose proof (atan_bound (v / u)) as Hb.
    assert (Hq : 0 < v / u)
      by (apply Rmult_lt_0_compat; [lra | apply Rinv_0_lt_compat; lra]).
    pose proof (atan_increasing 0 (v / u) Hq) as Hi. rewrite atan_0 in Hi.
    lra. }
  pose proof PI_4 as H4. pose proof PI_RGT_0 as H0.
  assert (Hh : 0 < Rad2Deg * Atan2 v u < 115) by (unfold Rad2Deg; nra).
  rewrite (Mod_nonneg_eq _ 360 (Rad2Deg * Atan2 v u) 1) by (lra || lia).
  eexists; eexists; eexists. split; [reflexivity |].
  split; [| exact Hh].
  apply Rlt_le_trans with (sqrt (u * u)).
  - rewrite sqrt_square by lra. exact Hu.
  - apply sqrt_le_1_alt. unfold sq. nra.
Qed.

(** C3, at black and pure red: black has chroma 0 and hue 0 in LuvLCh, red
    has a chroma above 0.2 and a hue strictly between 0 and 115 degrees;
    [BlendLuvLCh] interpolates from the hue 0 of black, so the blended hue at
    [t = 1/2] is half the hue of red and not the hue of red. *)
Theorem BlendLuvLCh_grey_hue_not_replaced :
  snd3 (Color_LuvLCh (mkColor 0 0 0)) = 0
  /\ thd3 (Color_LuvLCh (mkColor 0 0 0)) = 0
  /\ 0.2 < snd3 (Color_LuvLCh (mkColor 1 0 0))
  /\ 0 < thd3 (Color_LuvLCh (mkColor 1 0 0)) < 115
  /\ thd3 (BlendLuvLCh_coords (mkColor 0 0 0) (mkColor 1 0 0) (1 / 2))
     = thd3 (Color_LuvLCh (mkColor 1 0 0)) / 2
  /\ thd3 (BlendLuvLCh_coords (mkColor 0 0 0) (mkColor 1 0 0) (1 / 2))
     <> thd3 (Color_LuvLCh (mkColor 1 0 0)).
Proof.
  destruct Color_LuvLCh_red as (l & c & h & E & Hc & Hh).
  unfold BlendLuvLCh_coords. rewrite Color_LuvLCh_black, E.
  unfold snd3, thd3; simpl.
  rewrite interp_angle_from_0 by lra.
  repeat split; try lra.
Qed.

End HueGuard.

(** ** Blends in RGB *)

Section BlendRgbBoundary.

(** [BlendRgb] returns its endpoints exactly at [t = 0] and [t = 1]. *)
Lemma BlendRgb_boundary (c1 c2 : Color) :
  BlendRgb c1 c2 0 = c1 /\ BlendRgb c1 c2 1 = c2.
Proof.
  destruct c1 as [r1 g1 b1], c2 as [r2 g2 b2]. unfold BlendRgb; simpl.
  split; apply color_eq; lra.
Qed.

End BlendRgbBoundary.

(** ** Validity and clamping *)

Section Validity.

Lemma IsValid_intro (c : Color) :
  0 <= chR c <= 1 -> 0 <= chG c <= 1 -> 0 <= chB c <= 1 -> IsValid c = true.
Proof.
  intros HR HG HB. unfold IsValid.
  rewrite !leb_true by lra. reflexivity.
Qed.

Lemma clamp01_range (v : R) : 0 <= clamp01 v <= 1.
Proof.
  unfold clamp01, Rmax, Rmin.
  destruct (Rle_dec v 1); destruct (Rle_dec 0 _); lra.
Qed.

(** [Clamped] always returns a valid colour, leaves a valid colour unchanged
    (the no-op its comment promises) and is therefore idempotent. *)
Theorem Clamped_valid (c : Color) :
  IsValid (Clamped c) = true
  /\ (IsValid c = true -> Clamped c = c)
  /\ Clamped (Clamped c) = Clamped c.
Proof.
  assert (HV : forall d, IsValid (Clamped d) = true).
  { intros d. apply IsValid_intro; apply clamp01_range. }
  assert (HI : forall d, IsValid d = true -> Clamped d = d).
  { intros [r g b] Hd. apply IsValid_bounds in Hd. simpl in Hd.
    unfold Clamped; simpl. rewrite !clamp01_id by lra. reflexivity. }
  split; [apply HV |]. split; [apply HI |].
  apply HI. apply HV.
Qed.

Lemma Clamped_valid_witness :
  Clamped (mkColor (1 / 2) 0 1) = mkColor (1 / 2) 0 1.
Proof.
  assert (H : IsValid (mkColor (1 / 2) 0 1) = true)
    by (apply IsValid_intro; simpl; lra).
  exact (proj1 (proj2 (Clamped_valid (mkColor (1 / 2) 0 1))) H).
Defined.

(** [BlendHcl] clamps its result: whatever the two colours and the
    parameter are, the blend is a valid colour. *)
Theorem BlendHcl_valid (c1 c2 : Color) (t : R) :
  IsValid (BlendHcl c1 c2 t) = true.
Proof.
  unfold BlendHcl. apply IsValid_intro; apply clamp01_range.
Qed.

End Validity.

(** ** More on hue interpolation and the RGB tolerance *)

Section InterpEndpoints.

(** A number that is a remainder in [[0, y)] up to a multiple of [y] is the
    result of [Mod] on a non-negative dividend. *)
Lemma Mod_nonneg_unique (x y r : R) (k : Z) :
  0 < y -> 0 <= x -> 0 <= r < y -> x = IZR k * y + r -> Mod x y = r.
Proof.
  intros Hy Hx Hr E.
  apply (Mod_nonneg_eq x y r k Hy Hr E).
  apply Z.lt_succ_r. apply lt_IZR. rewrite succ_IZR.
  apply (Rmult_lt_reg_r y); [exact Hy |]. nra.
Qed.

Lemma interp_angle_at_1 (a0 a1 : R) :
  0 <= a0 < 360 -> 0 <= a1 < 360 -> interp_angle a0 a1 1 = a1.
Proof.
  intros H0 H1. unfold interp_angle. cbv zeta.
  pose proof (angle_delta_range a0 a1) as Hd.
  destruct (angle_delta_congr a0 a1) as [k Hk].
  apply (Mod_nonneg_unique _ 360 a1 (k + 1)); try lra.
  rewrite plus_IZR. lra.
Qed.

(** [interp_angle] returns its first angle at [t = 0] and its second angle
    at [t = 1], for angles in [[0, 360)]. *)
Theorem interp_angle_endpoints (a0 a1 : R)
  (H0 : 0 <= a0 < 360) (H1 : 0 <= a1 < 360) :
  interp_angle a0 a1 0 = a0 /\ interp_angle a0 a1 1 = a1.
Proof.
  split; [apply interp_angle_at_0; exact H0 |].
  apply interp_angle_at_1; assumption.
Qed.

Lemma interp_angle_endpoints_witness :
  interp_angle 350 10 0 = 350 /\ interp_angle 350 10 1 = 10.
Proof.
  assert (H0 : 0 <= 350 < 360) by lra.
  assert (H1 : 0 <= 10 < 360) by lra.
  exact (interp_angle_endpoints 350 10 H0 H1).
Defined.

(** [AlmostEqualRgb] is symmetric, and it accepts two colours as soon as
    every channel differs by less than [Delta]. *)
Theorem AlmostEqualRgb_sym_channels (c1 c2 : Color) :
  AlmostEqualRgb c1 c2 = AlmostEqualRgb c2 c1
  /\ (Rabs (chR c1 - chR c2) < Delta ->
      Rabs (chG c1 - chG c2) < Delta ->
      Rabs (chB c1 - chB c2) < Delta ->
      AlmostEqualRgb c1 c2 = true).
Proof.
  split.
  - unfold AlmostEqualRgb.
    rewrite (Rabs_minus_sym (chR c1)), (Rabs_minus_sym (chG c1)),
      (Rabs_minus_sym (chB c1)). reflexivity.
  - intros HR HG HB. unfold AlmostEqualRgb. apply ltb_true. lra.
Qed.

Lemma AlmostEqualRgb_sym_channels_witness :
  AlmostEqualRgb (mkColor 0.5 0.5 0.5) (mkColor 0.502 0.498 0.5) = true.
Proof.
  apply (proj2 (AlmostEqualRgb_sym_channels
                  (mkColor 0.5 0.5 0.5) (mkColor 0.502 0.498 0.5)));
    unfold Delta; cbn [chR chG chB]; apply Rabs_def1; lra.
Defined.

End InterpEndpoints.

(** ** HSV: sectors, validity and the round trip *)

Section HsvRoundTrip.

(** [Hsv] on a hue in sector [k], at the fraction [f] of the sector. *)
Lemma Hsv_in_sector (k : Z) (f S V : R) :
  (0 <= k <= 5)%Z -> 0 <= f < 1 ->
  Hsv (60 * (IZR k + f)) S V =
  let C := V * S in
  let m := V - C in
  match k with
  | 0%Z => mkColor (m + C) (m + C * f) m
  | 1%Z => mkColor (m + C * (1 - f)) (m + C) m
  | 2%Z => mkColor m (m + C) (m + C * f)
  | 3%Z => mkColor m (m + C * (1 - f)) (m + C)
  | 4%Z => mkColor (m + C * f) m (m + C)
  | _ => mkColor (m + C) m (m + C * (1 - f))
  end.
Proof.
  intros Hk Hf.
  assert (Hc : k = 0%Z \/ k = 1%Z \/ k = 2%Z \/ k = 3%Z \/ k = 4%Z \/ k = 5%Z)
    by lia.
  unfold Hsv. cbv zeta.
  replace (60 * (IZR k + f) / 60) with (IZR k + f) by lra.
  destruct Hc as [-> | [-> | [-> | [-> | [-> | ->]]]]].
  - rewrite (Mod_nonneg_eq (0 + f) 2 f 0) by (lra || lia).
    rewrite Rabs_left1 by lra. cmp. apply color_eq; lra.
  - rewrite (Mod_nonneg_eq (1 + f) 2 (1 + f) 0) by (lra || lia).
    rewrite Rabs_pos_eq by lra. cmp. apply color_eq; lra.
  - rewrite (Mod_nonneg_eq (2 + f) 2 f 1) by (lra || lia).
    rewrite Rabs_left1 by lra. cmp. apply color_eq; lra.
  - rewrite (Mod_nonneg_eq (3 + f) 2 (1 + f) 1) by (lra || lia).
    rewrite Rabs_pos_eq by lra. cmp. apply color_eq; lra.
  - rewrite (Mod_nonneg_eq (4 + f) 2 f 2) by (lra || lia).
    rewrite Rabs_left1 by lra. cmp. apply color_eq; lra.
  - rewrite (Mod_nonneg_eq (5 + f) 2 (1 + f) 2) by (lra || lia).
    rewrite Rabs_pos_eq by lra. cmp. apply color_eq; lra.
Qed.

(** Every hue in [[0, 360)] lies in one of the six sectors. *)
Lemma hue_sector (H : R) :
  0 <= H < 360 ->
  exists (k : Z) (f : R), (0 <= k <= 5)%Z /\ 0 <= f < 1 /\ H = 60 * (IZR k + f).
Proof.
  intros HH.
  destruct (base_Int_part (H / 60)) as [B1 B2].
  exists (Int_part (H / 60)), (H / 60 - IZR (Int_part (H / 60))).
  split.
  - split.
    + apply Z.lt_succ_r. apply lt_IZR. rewrite succ_IZR. lra.
    + apply Z.lt_succ_r. apply lt_IZR. rewrite succ_IZR. lra.
  - split; lra.
Qed.

(** [Hsv] returns a valid colour for every saturation and value in
    [[0, 1]], whatever the hue is (outside [[0, 360)] it returns a grey). *)
Theorem Hsv_valid (H S V : R) (HS : 0 <= S <= 1) (HV : 0 <= V <= 1) :
  IsValid (Hsv H S V) = true.
Proof.
  assert (HC : 0 <= V * S <= V) by nra.
  destruct (Rlt_dec H 0) as [Hneg | Hpos].
  { rewrite Hsv_out_of_range by (left; exact Hneg).
    apply IsValid_intro; simpl; lra. }
  destruct (Rle_dec 360 H) as [Hbig | Hsmall].
  { rewrite Hsv_out_of_range by (right; exact Hbig).
    apply IsValid_intro; simpl; lra. }
  destruct (hue_sector H) as (k & f & Hk & Hf & ->); [lra |].
  rewrite (Hsv_in_sector k f S V Hk Hf). cbv zeta.
  assert (HCf : 0 <= V * S * f <= V * S) by nra.
  assert (HCf' : 0 <= V * S * (1 - f) <= V * S) by nra.
  assert (Hc : k = 0%Z \/ k = 1%Z \/ k = 2%Z \/ k = 3%Z \/ k = 4%Z \/ k = 5%Z)
    by lia.
  destruct Hc as [-> | [-> | [-> | [-> | [-> | ->]]]]];
    apply IsValid_intro; simpl; lra.
Qed.

Lemma Hsv_valid_witness : IsValid (Hsv 400 (1 / 2) 1) = true.
Proof. apply Hsv_valid; lra. Defined.

(** The forward conversion followed by [Hsv] returns the colour, exactly. *)
Lemma Hsv_roundtrip_rgb (r g b : R) :
  0 <= r <= 1 -> 0 <= g <= 1 -> 0 <= b <= 1 ->
  Hsv (fst3 (Color_Hsv (mkColor r g b))) (snd3 (Color_Hsv (mkColor r g b)))
      (thd3 (Color_Hsv (mkColor r g b))) = mkColor r g b.
Proof.
  intros Br Bg Bb.
  unfold Color_Hsv, fst3, snd3, thd3; cbn [chR chG chB fst snd].
  destruct (Rmax3_cases r g b) as (Hr & Hg & Hb & Hv).
  destruct (Rmin3_cases r g b) as (Hr' & Hg' & Hb' & Hmn).
  set (mn := Rmin (Rmin r g) b) in *. set (v := Rmax (Rmax r g) b) in *.
  clearbody mn v.
  unfold neqb.
  destruct (Req_dec_T mn v) as [E | NE].
  - (* a grey *)
    rewrite (eqb_true mn v E). cbn [negb].
    replace 0 with (60 * (IZR 0 + 0)) at 1 by lra.
    rewrite Hsv_in_sector by (lia || lra). cbv zeta.
    replace ((v - mn) / v) with 0 by (subst mn; unfold Rdiv; ring).
    destruct (v =? 0); apply color_eq; cbn [negb]; lra.
  - rewrite (eqb_false mn v NE). cbn [negb].
    assert (HC : 0 < v - mn) by lra.
    assert (Hv0 : v <> 0) by lra.
    rewrite (eqb_false v 0 Hv0). cbn [negb].
    assert (HVS : v * ((v - mn) / v) = v - mn) by (field; lra).
    pose proof (quotient_bounds (g - b) (v - mn) HC) as Q1.
    pose proof (quotient_bounds (b - r) (v - mn) HC) as Q2.
    pose proof (quotient_bounds (r - g) (v - mn) HC) as Q3.
    assert (F1 : (g - b) / (v - mn) * (v - mn) = g - b) by (field; lra).
    assert (F2 : (b - r) / (v - mn) * (v - mn) = b - r) by (field; lra).
    assert (F3 : (r - g) / (v - mn) * (v - mn) = r - g) by (field; lra).
    set (q1 := (g - b) / (v - mn)) in *.
    set (q2 := (b - r) / (v - mn)) in *.
    set (q3 := (r - g) / (v - mn)) in *.
    assert (B1 : -1 <= q1 <= 1) by (apply Q1; lra).
    assert (B2 : -1 <= q2 <= 1) by (apply Q2; lra).
    assert (B3 : -1 <= q3 <= 1) by (apply Q3; lra).
    clearbody q1 q2 q3. clear Q1 Q2 Q3.
    rewrite (Mod_small q1 6) by lra.
    destruct (Req_dec_T v b) as [Eb | Nb];
      [rewrite (eqb_true _ _ Eb) | rewrite (eqb_false _ _ Nb)].
    { (* blue is the maximum *)
      rewrite ltb_false by lra.
      destruct (Rle_dec g r) as [Hgr | Hgr].
      - assert (Em : mn = g) by (destruct Hmn as [? | [? | ?]]; lra).
        destruct (Rlt_dec q3 1) as [Hq | Hq].
        + replace ((q3 + 4) * 60) with (60 * (IZR 4 + q3)) by lra.
          rewrite Hsv_in_sector by (lia || nra). cbv zeta.
          rewrite HVS. apply color_eq; nra.
        + assert (q3 = 1) by lra. subst q3.
          replace ((1 + 4) * 60) with (60 * (IZR 5 + 0)) by lra.
          rewrite Hsv_in_sector by (lia || lra). cbv zeta.
          rewrite HVS. apply color_eq; nra.
      - assert (Em : mn = r) by (destruct Hmn as [? | [? | ?]]; lra).
        replace ((q3 + 4) * 60) with (60 * (IZR 3 + (1 + q3))) by lra.
        rewrite Hsv_in_sector by (lia || nra). cbv zeta.
        rewrite HVS. apply color_eq; nra. }
    destruct (Req_dec_T v g) as [Eg | Ng];
      [rewrite (eqb_true _ _ Eg) | rewrite (eqb_false _ _ Ng)].
    { (* green is the maximum, blue is below it *)
      rewrite ltb_false by lra.
      assert (Hq2 : q2 < 1) by nra.
      destruct (Rle_dec r b) as [Hrb | Hrb].
      - assert (Em : mn = r) by (destruct Hmn as [? | [? | ?]]; lra).
        replace ((q2 + 2) * 60) with (60 * (IZR 2 + q2)) by lra.
        rewrite Hsv_in_sector by (lia || nra). cbv zeta.
        rewrite HVS. apply color_eq; nra.
      - assert (Em : mn = b) by (destruct Hmn as [? | [? | ?]]; lra).
        replace ((q2 + 2) * 60) with (60 * (IZR 1 + (1 + q2))) by lra.
        rewrite Hsv_in_sector by (lia || nra). cbv zeta.
        rewrite HVS. apply color_eq; nra. }
    (* red is the maximum, green and blue are below it *)
    assert (Er : v = r) by (destruct Hv as [? | [? | ?]]; lra).
    rewrite (eqb_true _ _ Er).
    assert (Hq1 : -1 < q1 < 1) by nra.
    destruct (Rle_dec b g) as [Hbg | Hbg].
    + assert (Em : mn = b) by (destruct Hmn as [? | [? | ?]]; lra).
      rewrite ltb_false by nra.
      replace (q1 * 60) with (60 * (IZR 0 + q1)) by lra.
      rewrite Hsv_in_sector by (lia || nra). cbv zeta.
      rewrite HVS. apply color_eq; nra.
    + assert (Em : mn = g) by (destruct Hmn as [? | [? | ?]]; lra).
      rewrite ltb_true by nra.
      replace (q1 * 60 + 360) with (60 * (IZR 5 + (1 + q1))) by lra.
      rewrite Hsv_in_sector by (lia || nra). cbv zeta.
      rewrite HVS. apply color_eq; nra.
Qed.





(** Without saturation [Hsv] returns the grey of the given value, whatever
    the hue. *)
Lemma Hsv_grey (H V : R) : Hsv H 0 V = mkColor V V V.
Proof.
  destruct (Rlt_dec H 0) as [Hneg | Hpos].
  { rewrite Hsv_out_of_range by (left; exact Hneg). apply color_eq; lra. }
  destruct (Rle_dec 360 H) as [Hbig | Hsmall].
  { rewrite Hsv_out_of_range by (right; exact Hbig). apply color_eq; lra. }
  destruct (hue_sector H) as (k & f & Hk & Hf & ->); [lra |].
  rewrite (Hsv_in_sector k f 0 V Hk Hf). cbv zeta.
  assert (Hc : k = 0%Z \/ k = 1%Z \/ k = 2%Z \/ k = 3%Z \/ k = 4%Z \/ k = 5%Z)
    by lia.
  destruct Hc as [-> | [-> | [-> | [-> | [-> | ->]]]]]; apply color_eq; lra.
Qed.

(** [BlendHsv] returns its endpoints exactly: the first colour at [t = 0]
    and the second at [t = 1], for valid colours. *)
Theorem BlendHsv_boundary (c1 c2 : Color)
  (H1 : IsValid c1 = true) (H2 : IsValid c2 = true) :
  BlendHsv c1 c2 0 = c1 /\ BlendHsv c1 c2 1 = c2.
Proof.
  assert (R1 : Hsv (fst3 (Color_Hsv c1)) (snd3 (Color_Hsv c1))
                   (thd3 (Color_Hsv c1)) = c1).
  { apply IsValid_bounds in H1. destruct c1 as [r g b]. simpl in H1.
    apply Hsv_roundtrip_rgb; tauto. }
  assert (R2 : Hsv (fst3 (Color_Hsv c2)) (snd3 (Color_Hsv c2))
                   (thd3 (Color_Hsv c2)) = c2).
  { apply IsValid_bounds in H2. destruct c2 as [r g b]. simpl in H2.
    apply Hsv_roundtrip_rgb; tauto. }
  pose proof (Color_Hsv_hue_range c1) as G1.
  pose proof (Color_Hsv_hue_range c2) as G2.
  unfold BlendHsv, BlendHsv_coords.
  destruct (Color_Hsv c1) as [[h1 s1] v1], (Color_Hsv c2) as [[h2 s2] v2].
  unfold fst3, snd3, thd3 in *; cbn [fst snd] in *.
  replace (s1 + 0 * (s2 - s1)) with s1 by lra.
  replace (v1 + 0 * (v2 - v1)) with v1 by lra.
  replace (s1 + 1 * (s2 - s1)) with s2 by lra.
  replace (v1 + 1 * (v2 - v1)) with v2 by lra.
  unfold neqb.
  destruct (Req_dec_T s1 0) as [E1 | N1];
    [rewrite (eqb_true _ _ E1) | rewrite (eqb_false _ _ N1)];
    (destruct (Req_dec_T s2 0) as [E2 | N2];
      [rewrite (eqb_true _ _ E2) | rewrite (eqb_false _ _ N2)]);
    cbn [andb negb].
  - rewrite interp_angle_at_0, interp_angle_at_1 by assumption.
    split; assumption.
  - rewrite !interp_angle_same by exact G2.
    split; [| exact R2].
    subst s1. rewrite Hsv_grey. rewrite Hsv_grey in R1. exact R1.
  - rewrite !interp_angle_same by exact G1.
    split; [exact R1 |].
    subst s2. rewrite Hsv_grey. rewrite Hsv_grey in R2. exact R2.
  - rewrite interp_angle_at_0, interp_angle_at_1 by assumption.
    split; assumption.
Qed.

Lemma BlendHsv_boundary_witness :
  BlendHsv (mkColor 1 0 0) (mkColor (1 / 2) (1 / 2) (1 / 2)) 0 = mkColor 1 0 0
  /\ BlendHsv (mkColor 1 0 0) (mkColor (1 / 2) (1 / 2) (1 / 2)) 1
     = mkColor (1 / 2) (1 / 2) (1 / 2).
Proof.
  apply BlendHsv_boundary; apply IsValid_intro; simpl; lra.
Defined.

End HsvRoundTrip.

(** ** HSL: sectors, validity and the round trip *)

Section HslRoundTrip.

(** [Hsl] on a hue in sector [k], at the fraction [f] of the sector, with a
    saturation other than 0. *)
Lemma Hsl_in_sector (k : Z) (f s l : R) :
  (0 <= k <= 5)%Z -> 0 <= f < 1 -> s <> 0 ->
  Hsl (60 * (IZR k + f)) s l =
  let t1 := if l <? 0.5 then l * (1 + s) else l + s - l * s in
  let t2 := 2 * l - t1 in
  let C := t1 - t2 in
  match k with
  | 0%Z => mkColor t1 (t2 + C * f) t2
  | 1%Z => mkColor (t2 + C * (1 - f)) t1 t2
  | 2%Z => mkColor t2 t1 (t2 + C * f)
  | 3%Z => mkColor t2 (t2 + C * (1 - f)) t1
  | 4%Z => mkColor (t2 + C * f) t2 t1
  | _ => mkColor t1 t2 (t2 + C * (1 - f))
  end.
Proof.
  intros Hk Hf Hs.
  assert (Hc : k = 0%Z \/ k = 1%Z \/ k = 2%Z \/ k = 3%Z \/ k = 4%Z \/ k = 5%Z)
    by lia.
  unfold Hsl. rewrite (eqb_false s 0 Hs). cbv zeta.
  set (t1 := if l <? 0.5 then l * (1 + s) else l + s - l * s).
  clearbody t1.
  unfold hsl_wrap, hsl_channel.
  destruct Hc as [-> | [-> | [-> | [-> | [-> | ->]]]]].
  - cmp. apply color_eq; lra.
  - cmp. apply color_eq; lra.
  - cmp. apply color_eq; lra.
  - cmp. apply color_eq; lra.
  - destruct (Rlt_dec 0 f) as [Hpos | Hz].
    + cmp. apply color_eq; lra.
    + assert (f = 0) by lra. subst f. cmp. apply color_eq; lra.
  - cmp. apply color_eq; lra.
Qed.

(** [Hsl] returns a valid colour for a hue in [[0, 360)] and saturation and
    lightness in [[0, 1]]. *)
Theorem Hsl_valid (h s l : R)
  (Hh : 0 <= h < 360) (Hs : 0 <= s <= 1) (Hl : 0 <= l <= 1) :
  IsValid (Hsl h s l) = true.
Proof.
  destruct (Req_dec_T s 0) as [E | NE].
  { unfold Hsl. rewrite (eqb_true s 0 E). apply IsValid_intro; simpl; lra. }
  destruct (hue_sector h Hh) as (k & f & Hk & Hf & ->).
  rewrite (Hsl_in_sector k f s l Hk Hf NE). cbv zeta.
  set (t1 := if l <? 0.5 then l * (1 + s) else l + s - l * s).
  assert (B : 0 <= 2 * l - t1 <= t1 /\ t1 <= 1).
  { unfold t1, ltb. destruct (Rlt_dec l 0.5); split; nra. }
  clearbody t1.
  assert (HCf : 0 <= (t1 - (2 * l - t1)) * f <= t1 - (2 * l - t1)) by nra.
  assert (HCf' : 0 <= (t1 - (2 * l - t1)) * (1 - f) <= t1 - (2 * l - t1)) by nra.
  assert (Hc : k = 0%Z \/ k = 1%Z \/ k = 2%Z \/ k = 3%Z \/ k = 4%Z \/ k = 5%Z)
    by lia.
  destruct Hc as [-> | [-> | [-> | [-> | [-> | ->]]]]];
    apply IsValid_intro; simpl; lra.
Qed.

Lemma Hsl_valid_witness : IsValid (Hsl 200 (1 / 2) (1 / 4)) = true.
Proof. apply Hsl_valid; lra. Defined.

Lemma Hsl_roundtrip_rgb (r g b : R) :
  0 <= r <= 1 -> 0 <= g <= 1 -> 0 <= b <= 1 ->
  Hsl (fst3 (Color_Hsl (mkColor r g b))) (snd3 (Color_Hsl (mkColor r g b)))
      (thd3 (Color_Hsl (mkColor r g b))) = mkColor r g b.
Proof.
  intros Br Bg Bb.
  unfold Color_Hsl; cbn [chR chG chB].
  destruct (Rmax3_cases r g b) as (Hr & Hg & Hb & Hv).
  destruct (Rmin3_cases r g b) as (Hr' & Hg' & Hb' & Hmn).
  set (mn := Rmin (Rmin r g) b) in *. set (v := Rmax (Rmax r g) b) in *.
  clearbody mn v.
  destruct (Req_dec_T mn v) as [E | NE].
  - rewrite (eqb_true mn v E). unfold fst3, snd3, thd3; cbn [fst snd].
    unfold Hsl. rewrite (eqb_true 0 0 eq_refl). apply color_eq; lra.
  - rewrite (eqb_false mn v NE). cbv zeta.
    unfold fst3, snd3, thd3; cbn [fst snd].
    assert (HC : 0 < v - mn) by lra.
    assert (Bm : 0 <= mn) by (destruct Hmn as [? | [? | ?]]; lra).
    assert (Bv : v <= 1) by (destruct Hv as [? | [? | ?]]; lra).
    set (l := (v + mn) / 2).
    set (s := if l <? 0.5 then (v - mn) / (v + mn)
              else (v - mn) / (2 - v - mn)).
    assert (Hs : s <> 0).
    { unfold s. destruct (l <? 0.5); apply Rgt_not_eq;
        apply Rdiv_lt_0_compat; lra. }
    assert (Ht1 : (if l <? 0.5 then l * (1 + s) else l + s - l * s) = v).
    { unfold s, ltb. destruct (Rlt_dec l 0.5); unfold l in *; field; lra. }
    assert (Ht2 : 2 * l - v = mn) by (unfold l; lra).
    pose proof (quotient_bounds (g - b) (v - mn) HC) as Q1.
    pose proof (quotient_bounds (b - r) (v - mn) HC) as Q2.
    pose proof (quotient_bounds (r - g) (v - mn) HC) as Q3.
    assert (F1 : (g - b) / (v - mn) * (v - mn) = g - b) by (field; lra).
    assert (F2 : (b - r) / (v - mn) * (v - mn) = b - r) by (field; lra).
    assert (F3 : (r - g) / (v - mn) * (v - mn) = r - g) by (field; lra).
    set (q1 := (g - b) / (v - mn)) in *.
    set (q2 := (b - r) / (v - mn)) in *.
    set (q3 := (r - g) / (v - mn)) in *.
    assert (B1 : -1 <= q1 <= 1) by (apply Q1; lra).
    assert (B2 : -1 <= q2 <= 1) by (apply Q2; lra).
    assert (B3 : -1 <= q3 <= 1) by (apply Q3; lra).
    clearbody q1 q2 q3 s. clear Q1 Q2 Q3.
    assert (Fin : forall k f,
               (0 <= k <= 5)%Z -> 0 <= f < 1 ->
               match k with
               | 0%Z => mkColor v (mn + (v - mn) * f) mn
               | 1%Z => mkColor (mn + (v - mn) * (1 - f)) v mn
               | 2%Z => mkColor mn v (mn + (v - mn) * f)
               | 3%Z => mkColor mn (mn + (v - mn) * (1 - f)) v
               | 4%Z => mkColor (mn + (v - mn) * f) mn v
               | _ => mkColor v mn (mn + (v - mn) * (1 - f))
               end = mkColor r g b ->
               Hsl (60 * (IZR k + f)) s l = mkColor r g b).
    { intros k f Hk Hf Heq. rewrite (Hsl_in_sector k f s l Hk Hf Hs).
      cbv zeta. rewrite Ht1, Ht2. exact Heq. }
    destruct (Req_dec_T v r) as [Er | Nr];
      [rewrite (eqb_true _ _ Er) | rewrite (eqb_false _ _ Nr)].
    { (* red is the maximum *)
      destruct (Rle_dec b g) as [Hbg | Hbg].
      - assert (Em : mn = b) by (destruct Hmn as [? | [? | ?]]; lra).
        rewrite ltb_false by nra.
        destruct (Rlt_dec q1 1) as [Hq | Hq].
        + replace (q1 * 60) with (60 * (IZR 0 + q1)) by lra.
          apply Fin; [lia | nra | apply color_eq; nra].
        + assert (q1 = 1) by lra. subst q1.
          replace (1 * 60) with (60 * (IZR 1 + 0)) by lra.
          apply Fin; [lia | lra | apply color_eq; nra].
      - assert (Em : mn = g) by (destruct Hmn as [? | [? | ?]]; lra).
        assert (Hq1 : q1 < 0) by nra.
        rewrite ltb_true by nra.
        replace (q1 * 60 + 360) with (60 * (IZR 5 + (1 + q1))) by lra.
        apply Fin; [lia | nra | apply color_eq; nra]. }
    destruct (Req_dec_T v g) as [Eg | Ng];
      [rewrite (eqb_true _ _ Eg) | rewrite (eqb_false _ _ Ng)].
    { (* green is the maximum, red is below it *)
      rewrite ltb_false by lra.
      assert (Hq2 : -1 < q2) by nra.
      destruct (Rle_dec r b) as [Hrb | Hrb].
      - assert (Em : mn = r) by (destruct Hmn as [? | [? | ?]]; lra).
        destruct (Rlt_dec q2 1) as [Hq | Hq].
        + replace ((2 + q2) * 60) with (60 * (IZR 2 + q2)) by lra.
          apply Fin; [lia | nra | apply color_eq; nra].
        + assert (q2 = 1) by lra. subst q2.
          replace ((2 + 1) * 60) with (60 * (IZR 3 + 0)) by lra.
          apply Fin; [lia | lra | apply color_eq; nra].
      - assert (Em : mn = b) by (destruct Hmn as [? | [? | ?]]; lra).
        replace ((2 + q2) * 60) with (60 * (IZR 1 + (1 + q2))) by lra.
        apply Fin; [lia | nra | apply color_eq; nra]. }
    (* blue is the maximum, red and green are below it *)
    assert (Eb : v = b) by (destruct Hv as [? | [? | ?]]; lra).
    rewrite ltb_false by lra.
    assert (Hq3 : -1 < q3 < 1) by nra.
    destruct (Rle_dec g r) as [Hgr | Hgr].
    + assert (Em : mn = g) by (destruct Hmn as [? | [? | ?]]; lra).
      replace ((4 + q3) * 60) with (60 * (IZR 4 + q3)) by lra.
      apply Fin; [lia | nra | apply color_eq; nra].
    + assert (Em : mn = r) by (destruct Hmn as [? | [? | ?]]; lra).
      replace ((4 + q3) * 60) with (60 * (IZR 3 + (1 + q3))) by lra.
      apply Fin; [lia | nra | apply color_eq; nra].
Qed.

(** [Color.Hsl] followed by [Hsl] returns a valid colour unchanged. *)
Theorem Hsl_roundtrip (c : Color) (Hc : IsValid c = true) :
  Hsl (fst3 (Color_Hsl c)) (snd3 (Color_Hsl c)) (thd3 (Color_Hsl c)) = c.
Proof.
  apply IsValid_bounds in Hc. destruct c as [r g b]. simpl in Hc.
  apply Hsl_roundtrip_rgb; tauto.
Qed.

Lemma Hsl_roundtrip_witness :
  Hsl (fst3 (Color_Hsl (mkColor 1 0 (1 / 2))))
      (snd3 (Color_Hsl (mkColor 1 0 (1 / 2))))
      (thd3 (Color_Hsl (mkColor 1 0 (1 / 2)))) = mkColor 1 0 (1 / 2).
Proof.
  apply Hsl_roundtrip. apply IsValid_intro; simpl; lra.
Defined.



End HslRoundTrip.

(** ** Shape of the transfer functions *)

Section TransferShape.

Lemma Rpower_24_gt (u w : R) :
  0 < u -> 0 <= w -> w ^ 5 < u ^ 12 -> w < Rpower u 2.4.
Proof.
  intros Hu Hw Hlt. apply Rnot_le_lt. intros Hle.
  assert (H5 : Rpower u 2.4 ^ 5 <= w ^ 5).
  { apply pow_incr. split; [left; apply Rpower_pos | exact Hle]. }
  rewrite Rpower_24_pow5 in H5 by exact Hu. lra.
Qed.

Lemma Rpower_inv24_lt (v q : R) :
  0 < v -> 0 <= q -> v ^ 5 < q ^ 12 -> Rpower v (1 / 2.4) < q.
Proof.
  intros Hv Hq Hlt. apply Rnot_le_lt. intros Hle.
  assert (H12 : q ^ 12 <= Rpower v (1 / 2.4) ^ 12).
  { apply pow_incr. split; assumption. }
  rewrite Rpower_inv24_pow12 in H12 by exact Hv. lra.
Qed.

Lemma Rpower_inv24_gt (v q : R) :
  0 < v -> 0 <= q -> q ^ 12 < v ^ 5 -> q < Rpower v (1 / 2.4).
Proof.
  intros Hv Hq Hlt. apply Rnot_le_lt. intros Hle.
  assert (H12 : Rpower v (1 / 2.4) ^ 12 <= q ^ 12).
  { apply pow_incr. split; [left; apply Rpower_pos | exact Hle]. }
  rewrite Rpower_inv24_pow12 in H12 by exact Hv. lra.
Qed.

Lemma linearize_lt (x y : R) : x < y -> linearize x < linearize y.
Proof.
  intros Hxy.
  destruct (Rle_dec y 0.04045) as [Hy | Hy].
  - rewrite !linearize_low by lra. lra.
  - apply Rnot_le_lt in Hy.
    destruct (Rle_dec x 0.04045) as [Hx | Hx].
    + rewrite (linearize_low x Hx), (linearize_high y Hy).
      apply Rle_lt_trans with (0.04045 / 12.92); [lra |].
      apply Rlt_trans with (Rpower (0.09545 / 1.055) 2.4).
      * apply Rpower_24_gt; lra.
      * apply Rlt_Rpower_l; lra.
    + apply Rnot_le_lt in Hx.
      rewrite (linearize_high x Hx), (linearize_high y Hy).
      apply Rlt_Rpower_l; lra.
Qed.

Lemma linearize_range (v : R) : 0 <= v <= 1 -> 0 <= linearize v <= 1.
Proof.
  intros [H0 H1]. split.
  - rewrite <- linearize_0. destruct H0 as [H0 | <-]; [| lra].
    left. apply linearize_lt. exact H0.
  - rewrite <- linearize_1. destruct H1 as [H1 | ->]; [| lra].
    left. apply linearize_lt. exact H1.
Qed.

(** [linearize] is strictly increasing on the whole real line, across its
    threshold too, and maps [[0, 1]] onto values between [linearize 0 = 0]
    and [linearize 1 = 1]. *)
Theorem linearize_increasing (x y v : R) (Hxy : x < y) (Hv : 0 <= v <= 1) :
  linearize x < linearize y
  /\ 0 <= linearize v <= 1
  /\ linearize 0 = 0 /\ linearize 1 = 1.
Proof.
  split; [apply linearize_lt; exact Hxy |].
  split; [apply linearize_range; exact Hv |].
  split; [apply linearize_0 | apply linearize_1].
Qed.

Lemma linearize_increasing_witness :
  linearize 0.04045 < linearize 0.04046.
Proof.
  assert (Hxy : 0.04045 < 0.04046) by lra.
  assert (Hv : 0 <= 1 / 2 <= 1) by lra.
  exact (proj1 (linearize_increasing 0.04045 0.04046 (1 / 2) Hxy Hv)).
Defined.

Lemma delinearize_range (v : R) : 0 <= v <= 1 -> 0 <= delinearize v <= 1.
Proof.
  intros [H0 H1].
  destruct (Rle_dec v 0.0031308) as [Hv | Hv].
  - rewrite delinearize_low by exact Hv. lra.
  - apply Rnot_le_lt in Hv. rewrite delinearize_high by exact Hv.
    assert (Hlo : 0.0522 < Rpower v (1 / 2.4)).
    { apply Rpower_inv24_gt; [lra | lra |].
      apply Rlt_le_trans with (0.0031308 ^ 5); [lra |].
      apply pow_incr. lra. }
    assert (Hhi : Rpower v (1 / 2.4) <= 1).
    { rewrite <- (Rpower_base_1 (1 / 2.4)) at 2.
      apply Rle_Rpower_l; lra. }
    lra.
Qed.

(** [LinearRgb] sends linear channels in [[0, 1]] to a valid colour, and
    [Color.LinearRgb] sends a valid colour to linear channels in [[0, 1]]. *)
Theorem LinearRgb_valid (r g b : R) (c : Color)
  (Hr : 0 <= r <= 1) (Hg : 0 <= g <= 1) (Hb : 0 <= b <= 1)
  (Hc : IsValid c = true) :
  IsValid (LinearRgb (r, g, b)) = true
  /\ 0 <= fst3 (Color_LinearRgb c) <= 1
  /\ 0 <= snd3 (Color_LinearRgb c) <= 1
  /\ 0 <= thd3 (Color_LinearRgb c) <= 1.
Proof.
  split.
  - unfold LinearRgb. apply IsValid_intro; simpl; apply delinearize_range;
      assumption.
  - apply IsValid_bounds in Hc. destruct Hc as (HR & HG & HB).
    unfold Color_LinearRgb, fst3, snd3, thd3; simpl.
    repeat split; apply linearize_range; assumption.
Qed.

Lemma LinearRgb_valid_witness :
  IsValid (LinearRgb (1 / 2, 0, 1)) = true.
Proof.
  assert (Hc : IsValid (mkColor 0 0 0) = true)
    by (apply IsValid_intro; simpl; lra).
  apply (proj1 (LinearRgb_valid (1 / 2) 0 1 (mkColor 0 0 0)
                  ltac:(lra) ltac:(lra) ltac:(lra) Hc)).
Defined.

(** [delinearize] is not monotone: it drops just above its threshold, where
    the power branch starts below the value the linear branch reaches at
    0.0031308. *)
Theorem delinearize_drops_at_threshold (v : R)
  (Hv : 0.0031308 < v <= 0.003130802) :
  delinearize v < delinearize 0.0031308
  /\ delinearize 0.0031308 = 0.040449936.
Proof.
  rewrite (delinearize_low 0.0031308) by lra.
  split; [| lra].
  rewrite delinearize_high by lra.
  assert (H : Rpower v (1 / 2.4) < 0.095449936 / 1.055).
  { apply Rpower_inv24_lt; [lra | lra |].
    apply Rle_lt_trans with (0.003130802 ^ 5); [apply pow_incr; lra | lra]. }
  lra.
Qed.

Lemma delinearize_drops_at_threshold_witness :
  delinearize 0.003130801 < delinearize 0.0031308.
Proof.
  assert (Hv : 0.0031308 < 0.003130801 <= 0.003130802) by lra.
  exact (proj1 (delinearize_drops_at_threshold 0.003130801 Hv)).
Defined.

End TransferShape.

(** ** XYZ, xyY, L*a*b* and L*u*v*: round trips *)

Section XyzRoundTrips.



Lemma Cbrt_pos_eq (t : R) : 0 < t -> Cbrt t = Rpower t (/ 3).
Proof. intros H. unfold Cbrt. destruct (Rlt_dec 0 t); [reflexivity | lra]. Qed.

Lemma Cbrt_cubed (t : R) : 0 < t -> Cbrt t * Cbrt t * Cbrt t = t.
Proof.
  intros Ht. rewrite (Cbrt_pos_eq t Ht).
  replace (Rpower t (/ 3) * Rpower t (/ 3) * Rpower t (/ 3))
    with (Rpower t (/ 3) ^ 3) by ring.
  rewrite <- (Rpower_pow 3) by apply Rpower_pos.
  rewrite Rpower_mult.
  replace (/ 3 * INR 3) with 1 by (simpl; lra).
  apply Rpower_1; exact Ht.
Qed.

Lemma Cbrt_above (t : R) : 6 / 29 * 6 / 29 * 6 / 29 < t -> 6 / 29 < Cbrt t.
Proof.
  intros Ht. rewrite <- (Cbrt_cube (6 / 29)) at 1 by lra.
  apply Cbrt_pos_lt. lra.
Qed.

Lemma Cbrt_1 : Cbrt 1 = 1.
Proof. rewrite Cbrt_pos_eq by lra. apply Rpower_base_1. Qed.

Lemma lab_finv_lab_f (t : R) : lab_finv (lab_f t) = t.
Proof.
  unfold lab_f, lab_finv.
  destruct (Rlt_dec (6 / 29 * 6 / 29 * 6 / 29) t) as [Ht | Ht].
  - rewrite (ltb_true _ t Ht).
    rewrite (ltb_true _ _ (Cbrt_above t Ht)).
    apply Cbrt_cubed. lra.
  - rewrite (ltb_false _ t) by lra.
    rewrite ltb_false by lra. lra.
Qed.

Lemma lab_f_lab_finv (t : R) : lab_f (lab_finv t) = t.
Proof.
  unfold lab_f, lab_finv.
  destruct (Rlt_dec (6 / 29) t) as [Ht | Ht].
  - rewrite (ltb_true _ t Ht).
    assert (H3 : 6 / 29 * 6 / 29 * 6 / 29 < t * t * t) by nra.
    rewrite (ltb_true _ _ H3). apply Cbrt_cube. lra.
  - rewrite (ltb_false _ t) by lra.
    rewrite ltb_false by lra. lra.
Qed.

Lemma LabToXyz_XyzToLab (p w : triple) :
  fst3 w <> 0 -> snd3 w <> 0 -> thd3 w <> 0 ->
  LabToXyzWhiteRef (XyzToLabWhiteRef p w) w = p.
Proof.
  destruct p as [[x y] z], w as [[w0 w1] w2].
  unfold fst3, snd3, thd3; cbn [fst snd]. intros H0 H1 H2.
  unfold XyzToLabWhiteRef, LabToXyzWhiteRef, fst3, snd3, thd3; cbn [fst snd].
  replace ((1.16 * lab_f (y / w1) - 0.16 + 0.16) / 1.16)
    with (lab_f (y / w1)) by lra.
  replace (lab_f (y / w1) + 5 * (lab_f (x / w0) - lab_f (y / w1)) / 5)
    with (lab_f (x / w0)) by lra.
  replace (lab_f (y / w1) - 2 * (lab_f (y / w1) - lab_f (z / w2)) / 2)
    with (lab_f (z / w2)) by lra.
  rewrite !lab_finv_lab_f. apply triple_eq; field; assumption.
Qed.

Lemma XyzToLab_LabToXyz (p w : triple) :
  fst3 w <> 0 -> snd3 w <> 0 -> thd3 w <> 0 ->
  XyzToLabWhiteRef (LabToXyzWhiteRef p w) w = p.
Proof.
  destruct p as [[l a] b], w as [[w0 w1] w2].
  unfold fst3, snd3, thd3; cbn [fst snd]. intros H0 H1 H2.
  unfold XyzToLabWhiteRef, LabToXyzWhiteRef, fst3, snd3, thd3; cbn [fst snd].
  replace (w0 * lab_finv ((l + 0.16) / 1.16 + a / 5) / w0)
    with (lab_finv ((l + 0.16) / 1.16 + a / 5)) by (field; assumption).
  replace (w1 * lab_finv ((l + 0.16) / 1.16) / w1)
    with (lab_finv ((l + 0.16) / 1.16)) by (field; assumption).
  replace (w2 * lab_finv ((l + 0.16) / 1.16 - b / 2) / w2)
    with (lab_finv ((l + 0.16) / 1.16 - b / 2)) by (field; assumption).
  rewrite !lab_f_lab_finv. apply triple_eq; lra.
Qed.

(** XYZ and L*a*b* are in exact one-to-one correspondence for a reference
    white without a zero component: each conversion undoes the other. *)
Theorem Lab_Xyz_bijection (p q w : triple)
  (H0 : fst3 w <> 0) (H1 : snd3 w <> 0) (H2 : thd3 w <> 0) :
  LabToXyzWhiteRef (XyzToLabWhiteRef p w) w = p
  /\ XyzToLabWhiteRef (LabToXyzWhiteRef q w) w = q.
Proof.
  split; [apply LabToXyz_XyzToLab | apply XyzToLab_LabToXyz]; assumption.
Qed.

Lemma D65_nonzero : fst3 D65 <> 0 /\ snd3 D65 <> 0 /\ thd3 D65 <> 0.
Proof. unfold D65, fst3, snd3, thd3; simpl. repeat split; lra. Qed.

Lemma Lab_Xyz_bijection_witness :
  LabToXyzWhiteRef (XyzToLabWhiteRef (0.2, 0.3, 0.4) D65) D65 = (0.2, 0.3, 0.4).
Proof.
  destruct D65_nonzero as (H0 & H1 & H2).
  exact (proj1 (Lab_Xyz_bijection (0.2, 0.3, 0.4) (0, 0, 0) D65 H0 H1 H2)).
Defined.

(** The L*a*b* round trip of a colour is its XYZ round trip, and [BlendLab]
    at [t = 0] and [t = 1] is the XYZ round trip of its endpoints. *)
Theorem BlendLab_boundary (c1 c2 : Color) :
  Lab (Color_Lab c1) = Xyz (Color_Xyz c1)
  /\ BlendLab c1 c2 0 = Xyz (Color_Xyz c1)
  /\ BlendLab c1 c2 1 = Xyz (Color_Xyz c2).
Proof.
  destruct D65_nonzero as (H0 & H1 & H2).
  assert (E : forall c, Lab (Color_Lab c) = Xyz (Color_Xyz c)).
  { intros c. unfold Lab, Color_Lab, LabToXyz, XyzToLab.
    rewrite LabToXyz_XyzToLab by assumption. reflexivity. }
  split; [apply E |].
  unfold BlendLab. rewrite <- (E c1), <- (E c2).
  destruct (Color_Lab c1) as [[l1 a1] b1], (Color_Lab c2) as [[l2 a2] b2].
  split; f_equal; apply triple_eq; lra.
Qed.

(** The lightness of L*u*v* and the luminance it is converted back to. *)
Lemma Luv_lightness_inverse (t w1 : R) :
  w1 <> 0 ->
  let l := if t <=? 6 / 29 * 6 / 29 * 6 / 29
           then t * (29 / 3 * 29 / 3 * 29 / 3) / 100
           else 1.16 * Cbrt t - 0.16 in
  (if l <=? 0.08 then w1 * l * 100 * 3 / 29 * 3 / 29 * 3 / 29
   else w1 * cub ((l + 0.16) / 1.16)) = w1 * t
  /\ (t <> 0 -> l <> 0).
Proof.
  intros Hw. cbv zeta.
  destruct (Rle_dec t (6 / 29 * 6 / 29 * 6 / 29)) as [Ht | Ht].
  - rewrite (leb_true t _ Ht). rewrite leb_true by lra.
    split; [lra | intros Hn; lra].
  - apply Rnot_le_lt in Ht. rewrite (leb_false t _ Ht).
    pose proof (Cbrt_above t Ht) as Hc.
    rewrite leb_false by lra.
    split; [| intros _; lra].
    replace ((1.16 * Cbrt t - 0.16 + 0.16) / 1.16) with (Cbrt t) by lra.
    unfold cub. rewrite Cbrt_cubed by lra. reflexivity.
Qed.

Lemma LuvToXyz_XyzToLuv (x y z : R) (w : triple) :
  snd3 w <> 0 -> y <> 0 -> x + 15 * y + 3 * z <> 0 ->
  LuvToXyzWhiteRef (XyzToLuvWhiteRef (x, y, z) w) w = (x, y, z).
Proof.
  destruct w as [[w0 w1] w2]. unfold fst3, snd3, thd3; cbn [fst snd].
  intros Hw Hy Hd.
  unfold XyzToLuvWhiteRef, LuvToXyzWhiteRef, fst3, snd3, thd3; cbn [fst snd].
  unfold xyz_to_uv at 1. rewrite (eqb_false _ 0 Hd).
  destruct (xyz_to_uv (w0, w1, w2)) as [un vn].
  assert (Ht : y / w1 <> 0).
  { unfold Rdiv. apply Rmult_integral_contrapositive_currified;
      [exact Hy | apply Rinv_neq_0_compat; exact Hw]. }
  destruct (Luv_lightness_inverse (y / w1) w1 Hw) as [EY HL].
  cbv zeta in EY, HL. specialize (HL Ht).
  set (l := if y / w1 <=? 6 / 29 * 6 / 29 * 6 / 29
            then y / w1 * (29 / 3 * 29 / 3 * 29 / 3) / 100
            else 1.16 * Cbrt (y / w1) - 0.16) in *.
  clearbody l.
  unfold neqb. rewrite (eqb_false l 0 HL). cbn [negb].
  rewrite EY.
  replace (w1 * (y / w1)) with y by (field; exact Hw).
  apply triple_eq; [field | reflexivity | field];
    repeat split; try assumption; intros E; apply Hy; lra.
Qed.

(** With luminance 0 the lightness is 0 and [LuvToXyzWhiteRef] answers
    black, whatever X and Z were. *)
Lemma LuvToXyz_XyzToLuv_dark (x z : R) (w : triple) :
  LuvToXyzWhiteRef (XyzToLuvWhiteRef (x, 0, z) w) w = (0, 0, 0).
Proof.
  destruct w as [[w0 w1] w2].
  unfold XyzToLuvWhiteRef, LuvToXyzWhiteRef, fst3, snd3, thd3; cbn [fst snd].
  destruct (xyz_to_uv (x, 0, z)) as [ub vb].
  destruct (xyz_to_uv (w0, w1, w2)) as [un vn].
  replace (0 / w1) with 0 by (unfold Rdiv; ring).
  rewrite leb_true by lra.
  replace (0 * (29 / 3 * 29 / 3 * 29 / 3) / 100) with 0 by lra.
  unfold neqb. rewrite (eqb_true 0 0 eq_refl). reflexivity.
Qed.

(** XYZ to L*u*v* and back is exact whenever the luminance Y and the
    denominator X + 15 Y + 3 Z are not zero; with Y = 0 the result is black,
    so X and Z are lost. *)
Theorem Luv_Xyz_roundtrip (x y z x' z' : R) (w : triple)
  (Hw : snd3 w <> 0) (Hy : y <> 0) (Hd : x + 15 * y + 3 * z <> 0) :
  LuvToXyzWhiteRef (XyzToLuvWhiteRef (x, y, z) w) w = (x, y, z)
  /\ LuvToXyzWhiteRef (XyzToLuvWhiteRef (x', 0, z') w) w = (0, 0, 0).
Proof.
  split; [apply LuvToXyz_XyzToLuv; assumption | apply LuvToXyz_XyzToLuv_dark].
Qed.

Lemma Luv_Xyz_roundtrip_witness :
  LuvToXyzWhiteRef (XyzToLuvWhiteRef (0.2, 0.3, 0.4) D50) D50 = (0.2, 0.3, 0.4)
  /\ LuvToXyzWhiteRef (XyzToLuvWhiteRef (0.2, 0, 0.4) D50) D50 = (0, 0, 0).
Proof.
  apply (Luv_Xyz_roundtrip 0.2 0.3 0.4 0.2 0.4 D50);
    unfold D50, snd3; simpl; lra.
Defined.



(** The reference white itself has lightness 1 and no colour in L*a*b* and
    in L*u*v*: [(L, a, b) = (1, 0, 0)] and [(L, u, v) = (1, 0, 0)]. *)
Theorem white_is_neutral (w : triple)
  (H0 : fst3 w <> 0) (H1 : snd3 w <> 0) (H2 : thd3 w <> 0) :
  XyzToLabWhiteRef w w = (1, 0, 0) /\ XyzToLuvWhiteRef w w = (1, 0, 0).
Proof.
  destruct w as [[w0 w1] w2]. unfold fst3, snd3, thd3 in *; cbn [fst snd] in *.
  assert (F : lab_f 1 = 1).
  { unfold lab_f. rewrite ltb_true by lra. apply Cbrt_1. }
  split.
  - unfold XyzToLabWhiteRef, fst3, snd3, thd3; cbn [fst snd].
    replace (w0 / w0) with 1 by (field; assumption).
    replace (w1 / w1) with 1 by (field; assumption).
    replace (w2 / w2) with 1 by (field; assumption).
    rewrite F. apply triple_eq; lra.
  - unfold XyzToLuvWhiteRef, fst3, snd3, thd3; cbn [fst snd].
    replace (w1 / w1) with 1 by (field; assumption).
    rewrite leb_false by lra. rewrite Cbrt_1.
    destruct (xyz_to_uv (w0, w1, w2)) as [un vn].
    apply triple_eq; lra.
Qed.

Lemma white_is_neutral_witness :
  XyzToLabWhiteRef D50 D50 = (1, 0, 0) /\ XyzToLuvWhiteRef D50 D50 = (1, 0, 0).
Proof.
  apply white_is_neutral; unfold D50, fst3, snd3, thd3; simpl; lra.
Defined.

(** Going from polar coordinates to L*a*b*, or to L*u*v*, and back keeps
    the lightness and returns the absolute value of the chroma. *)
Theorem polar_chroma_preserved (h c l : R) :
  snd3 (LabToHcl (HclToLab (h, c, l))) = Rabs c
  /\ thd3 (LabToHcl (HclToLab (h, c, l))) = l
  /\ snd3 (LuvToLuvLCh (LuvLChToLuv (l, c, h))) = Rabs c
  /\ fst3 (LuvToLuvLCh (LuvLChToLuv (l, c, h))) = l.
Proof.
  assert (E : sqrt (sq (c * cos (Deg2Rad * h)) + sq (c * sin (Deg2Rad * h)))
              = Rabs c).
  { rewrite <- sqrt_Rsqr_abs. f_equal. unfold sq, Rsqr.
    pose proof (sin2_cos2 (Deg2Rad * h)) as T. unfold Rsqr in T. nra. }
  unfold LabToHcl, HclToLab, LuvToLuvLCh, LuvLChToLuv, fst3, snd3, thd3;
    cbn [fst snd].
  repeat split; try reflexivity; exact E.
Qed.

End XyzRoundTrips.

(** ** XYZ of valid colours, and the L*u*v* blend *)

Section ValidXyz.

Lemma linearize_pos (v : R) : 0 < v -> 0 < linearize v.
Proof. intros H. rewrite <- linearize_0. apply linearize_lt. exact H. Qed.

Lemma Color_Xyz_valid (c : Color) :
  IsValid c = true ->
  0 <= fst3 (Color_Xyz c) <= 0.9505
  /\ 0 <= snd3 (Color_Xyz c) <= 1 + 1e-17
  /\ 0 <= thd3 (Color_Xyz c) <= 1.0891
  /\ (snd3 (Color_Xyz c) = 0 -> Color_Xyz c = (0, 0, 0))
  /\ (c <> mkColor 0 0 0 -> 0 < snd3 (Color_Xyz c)).
Proof.
  intros Hc. apply IsValid_bounds in Hc. destruct c as [r g b]. simpl in Hc.
  destruct Hc as (HR & HG & HB).
  pose proof (linearize_range r HR) as LR.
  pose proof (linearize_range g HG) as LG.
  pose proof (linearize_range b HB) as LB.
  unfold Color_Xyz, Color_LinearRgb, LinearRgbToXyz, fst3, snd3, thd3;
    cbn [chR chG chB fst snd].
  split; [lra |]. split; [lra |]. split; [lra |]. split.
  - intros E. apply triple_eq; lra.
  - intros Hn.
    destruct (Rlt_dec 0 r) as [Pr | Zr];
      [pose proof (linearize_pos r Pr); lra |].
    destruct (Rlt_dec 0 g) as [Pg | Zg];
      [pose proof (linearize_pos g Pg); lra |].
    destruct (Rlt_dec 0 b) as [Pb | Zb];
      [pose proof (linearize_pos b Pb); lra |].
    exfalso. apply Hn. apply color_eq; lra.
Qed.

(** For a valid colour the XYZ coordinates are not negative, X is at most
    0.9505, Y at most 1 (up to 1e-17) and Z at most 1.0891; only black has
    luminance 0. *)
Theorem Color_Xyz_range (c : Color) (Hc : IsValid c = true) :
  0 <= fst3 (Color_Xyz c) <= 0.9505
  /\ 0 <= snd3 (Color_Xyz c) <= 1 + 1e-17
  /\ 0 <= thd3 (Color_Xyz c) <= 1.0891
  /\ (c <> mkColor 0 0 0 -> 0 < snd3 (Color_Xyz c)).
Proof.
  destruct (Color_Xyz_valid c Hc) as (HX & HY & HZ & _ & HP).
  repeat split; try tauto.
Qed.

Lemma Color_Xyz_range_witness :
  0 <= snd3 (Color_Xyz (mkColor 1 1 1)) <= 1 + 1e-17.
Proof.
  assert (H : IsValid (mkColor 1 1 1) = true)
    by (apply IsValid_intro; simpl; lra).
  exact (proj1 (proj2 (Color_Xyz_range (mkColor 1 1 1) H))).
Defined.

Lemma LuvToXyz_Color_Luv (c : Color) :
  IsValid c = true -> LuvToXyz (Color_Luv c) = Color_Xyz c.
Proof.
  intros Hc. destruct (Color_Xyz_valid c Hc) as (HX & HY & HZ & H0 & _).
  unfold LuvToXyz, Color_Luv, XyzToLuv.
  destruct (Color_Xyz c) as [[x y] z].
  unfold fst3, snd3, thd3 in *; cbn [fst snd] in *.
  destruct (Req_dec_T y 0) as [E | NE].
  - rewrite (H0 E). apply LuvToXyz_XyzToLuv_dark.
  - apply LuvToXyz_XyzToLuv; [unfold D65, snd3; simpl; lra | exact NE | lra].
Qed.

(** For valid colours the L*u*v* round trip is the XYZ round trip, and
    [BlendLuv] at [t = 0] and [t = 1] is the XYZ round trip of its
    endpoints. *)
Theorem BlendLuv_boundary (c1 c2 : Color)
  (H1 : IsValid c1 = true) (H2 : IsValid c2 = true) :
  Luv (Color_Luv c1) = Xyz (Color_Xyz c1)
  /\ BlendLuv c1 c2 0 = Xyz (Color_Xyz c1)
  /\ BlendLuv c1 c2 1 = Xyz (Color_Xyz c2).
Proof.
  assert (E1 : Luv (Color_Luv c1) = Xyz (Color_Xyz c1))
    by (unfold Luv; rewrite LuvToXyz_Color_Luv by exact H1; reflexivity).
  assert (E2 : Luv (Color_Luv c2) = Xyz (Color_Xyz c2))
    by (unfold Luv; rewrite LuvToXyz_Color_Luv by exact H2; reflexivity).
  split; [exact E1 |].
  unfold BlendLuv. rewrite <- E1, <- E2.
  destruct (Color_Luv c1) as [[l1 u1] v1], (Color_Luv c2) as [[l2 u2] v2].
  split; f_equal; apply triple_eq; lra.
Qed.

Lemma BlendLuv_boundary_witness :
  BlendLuv (mkColor 1 0 0) (mkColor 0 0 1) 0 = Xyz (Color_Xyz (mkColor 1 0 0)).
Proof.
  assert (H1 : IsValid (mkColor 1 0 0) = true)
    by (apply IsValid_intro; simpl; lra).
  assert (H2 : IsValid (mkColor 0 0 1) = true)
    by (apply IsValid_intro; simpl; lra).
  exact (proj1 (proj2 (BlendLuv_boundary (mkColor 1 0 0) (mkColor 0 0 1) H1 H2))).
Defined.

(** [BlendLinearRgb] returns its endpoints exactly as long as no channel of
    the endpoint lies in the narrow band between the two thresholds of the
    transfer functions. *)
Theorem BlendLinearRgb_boundary (c1 c2 : Color)
  (HR1 : chR c1 <= 0.040449936 \/ 0.04045 < chR c1)
  (HG1 : chG c1 <= 0.040449936 \/ 0.04045 < chG c1)
  (HB1 : chB c1 <= 0.040449936 \/ 0.04045 < chB c1)
  (HR2 : chR c2 <= 0.040449936 \/ 0.04045 < chR c2)
  (HG2 : chG c2 <= 0.040449936 \/ 0.04045 < chG c2)
  (HB2 : chB c2 <= 0.040449936 \/ 0.04045 < chB c2) :
  BlendLinearRgb c1 c2 0 = c1 /\ BlendLinearRgb c1 c2 1 = c2.
Proof.
  destruct c1 as [r1 g1 b1], c2 as [r2 g2 b2]. cbn [chR chG chB] in *.
  unfold BlendLinearRgb, Color_LinearRgb, LinearRgb; cbn [chR chG chB].
  split; apply color_eq.
  all: match goal with
       | |- delinearize ?e = ?v =>
           replace e with (linearize v) by lra;
           apply delinearize_linearize; assumption
       end.
Qed.

Lemma BlendLinearRgb_boundary_witness :
  BlendLinearRgb (mkColor 1 0 0) (mkColor 0 0 1) 0 = mkColor 1 0 0
  /\ BlendLinearRgb (mkColor 1 0 0) (mkColor 0 0 1) 1 = mkColor 0 0 1.
Proof.
  apply BlendLinearRgb_boundary; cbn [chR chG chB]; lra.
Defined.

End ValidXyz.

(** ** More on the distances *)

Section MoreDistances.

Lemma euclid_triangle (u1 u2 u3 v1 v2 v3 : R) :
  sqrt (sq (u1 + v1) + sq (u2 + v2) + sq (u3 + v3))
  <= sqrt (sq u1 + sq u2 + sq u3) + sqrt (sq v1 + sq v2 + sq v3).
Proof.
  unfold sq.
  set (U := u1 * u1 + u2 * u2 + u3 * u3).
  set (V := v1 * v1 + v2 * v2 + v3 * v3).
  assert (HU : 0 <= U) by (unfold U; nra).
  assert (HV : 0 <= V) by (unfold V; nra).
  pose proof (sqrt_pos U) as PU. pose proof (sqrt_pos V) as PV.
  pose proof (sqrt_sqrt U HU) as SU. pose proof (sqrt_sqrt V HV) as SV.
  set (su := sqrt U) in *. set (sv := sqrt V) in *.
  set (d := u1 * v1 + u2 * v2 + u3 * v3).
  assert (CS : d * d <= U * V).
  { unfold d, U, V.
    pose proof (Rle_0_sqr (u1 * v2 - u2 * v1)) as A.
    pose proof (Rle_0_sqr (u1 * v3 - u3 * v1)) as B.
    pose proof (Rle_0_sqr (u2 * v3 - u3 * v2)) as C.
    unfold Rsqr in *. nra. }
  assert (Hd : d <= su * sv).
  { apply Rnot_lt_le. intros Hlt.
    assert (0 <= su * sv) by (apply Rmult_le_pos; assumption).
    assert ((su * sv) * (su * sv) < d * d) by nra.
    assert ((su * sv) * (su * sv) = U * V) by nra.
    lra. }
  rewrite <- (sqrt_square (su + sv)) by lra.
  apply sqrt_le_1_alt. unfold U, V, d in *. nra.
Qed.

(** [DistanceRgb] is a metric: it is 0 exactly for equal colours and obeys
    the triangle inequality. *)
Theorem DistanceRgb_metric (c1 c2 c3 : Color) :
  (DistanceRgb c1 c2 = 0 <-> c1 = c2)
  /\ DistanceRgb c1 c3 <= DistanceRgb c1 c2 + DistanceRgb c2 c3.
Proof.
  split.
  - split; [| intros ->; apply DistanceRgb_refl].
    intros H. unfold DistanceRgb, sq in H.
    destruct c1 as [r1 g1 b1], c2 as [r2 g2 b2]. cbn [chR chG chB] in H.
    pose proof (Rle_0_sqr (r1 - r2)) as S1.
    pose proof (Rle_0_sqr (g1 - g2)) as S2.
    pose proof (Rle_0_sqr (b1 - b2)) as S3.
    unfold Rsqr in *.
    apply sqrt_eq_0 in H; [| lra].
    apply color_eq; nra.
  - unfold DistanceRgb.
    replace (chR c1 - chR c3) with ((chR c1 - chR c2) + (chR c2 - chR c3)) by lra.
    replace (chG c1 - chG c3) with ((chG c1 - chG c2) + (chG c2 - chG c3)) by lra.
    replace (chB c1 - chB c3) with ((chB c1 - chB c2) + (chB c2 - chB c3)) by lra.
    apply euclid_triangle.
Qed.

(** For valid colours the radicand of [DistanceRiemersma] is not negative,
    and the distance is 0 exactly for equal colours. *)
Theorem DistanceRiemersma_zero (c1 c2 : Color)
  (H1 : IsValid c1 = true) (H2 : IsValid c2 = true) :
  0 <= (2 + (chR c1 + chR c2) / 2) * (chR c1 - chR c2) * (chR c1 - chR c2)
       + 4 * (chG c1 - chG c2) * (chG c1 - chG c2)
       + (2 + (1 - (chR c1 + chR c2) / 2)) * (chB c1 - chB c2) * (chB c1 - chB c2)
  /\ (DistanceRiemersma c1 c2 = 0 <-> c1 = c2).
Proof.
  pose proof (DistanceRiemersma_radicand c1 c2 H1 H2) as Hrad. cbv zeta in Hrad.
  split; [exact Hrad |].
  split; [| intros ->; apply DistanceRiemersma_refl].
  intros H. unfold DistanceRiemersma in H. cbv zeta in H.
  apply sqrt_eq_0 in H; [| exact Hrad].
  apply IsValid_bounds in H1, H2.
  destruct c1 as [r1 g1 b1], c2 as [r2 g2 b2]. cbn [chR chG chB] in *.
  assert (Hr : 0 <= (r1 + r2) / 2 <= 1) by lra.
  set (a := (r1 + r2) / 2) in *. clearbody a.
  pose proof (Rle_0_sqr (r1 - r2)) as S1.
  pose proof (Rle_0_sqr (g1 - g2)) as S2.
  pose proof (Rle_0_sqr (b1 - b2)) as S3.
  unfold Rsqr in *.
  assert (Z1 : (r1 - r2) * (r1 - r2) = 0) by nra.
  assert (Z2 : (g1 - g2) * (g1 - g2) = 0) by nra.
  assert (Z3 : (b1 - b2) * (b1 - b2) = 0) by nra.
  apply color_eq; nra.
Qed.

Lemma DistanceRiemersma_zero_witness :
  DistanceRiemersma (mkColor 1 0 0) (mkColor 1 0 0) = 0 <->
  mkColor 1 0 0 = mkColor 1 0 0.
Proof.
  assert (H : IsValid (mkColor 1 0 0) = true)
    by (apply IsValid_intro; simpl; lra).
  exact (proj2 (DistanceRiemersma_zero (mkColor 1 0 0) (mkColor 1 0 0) H H)).
Defined.

(** [DistanceLuv] is symmetric, not negative and 0 between a colour and
    itself; [DistanceLinearRGB] is [DistanceLinearRgb]; and
    [DistanceCIEDE2000klch] is symmetric and 0 on the diagonal for every
    choice of the weights. *)
Theorem remaining_distances (c1 c2 : Color) (kl kc kh : R) :
  DistanceLuv c1 c2 = DistanceLuv c2 c1
  /\ 0 <= DistanceLuv c1 c2
  /\ DistanceLuv c1 c1 = 0
  /\ DistanceLinearRGB c1 c2 = DistanceLinearRgb c1 c2
  /\ DistanceCIEDE2000klch c1 c2 kl kc kh = DistanceCIEDE2000klch c2 c1 kl kc kh
  /\ DistanceCIEDE2000klch c1 c1 kl kc kh = 0.
Proof.
  unfold DistanceLuv.
  split; [| split; [| split; [| split; [reflexivity | split]]]].
  - destruct (Color_Luv c1) as [[l1 u1] v1], (Color_Luv c2) as [[l2 u2] v2].
    f_equal. unfold sq. ring.
  - destruct (Color_Luv c1) as [[l1 u1] v1], (Color_Luv c2) as [[l2 u2] v2].
    apply sqrt_pos.
  - destruct (Color_Luv c1) as [[l1 u1] v1].
    apply sqrt_of_zero. unfold sq. ring.
  - apply DistanceCIEDE2000klch_sym.
  - apply DistanceCIEDE2000klch_refl.
Qed.

End MoreDistances.

(** ** Integer channels *)

Section IntegerChannels.

Lemma Rabs_le_elim (x a : R) : Rabs x <= a -> - a <= x <= a.
Proof. unfold Rabs. destruct (Rcase_abs x); lra. Qed.

Lemma Trunc_nonneg (x : R) : 0 <= x -> Trunc x = Int_part x.
Proof. intros H. unfold Trunc. destruct (Rlt_dec x 0); [lra | reflexivity]. Qed.

(** Rounding a scaled channel: adding 0.5 and truncating gives the nearest
    integer, within the scale. *)
Lemma round_channel (v s : R) (n : Z) :
  0 <= v <= 1 -> s = IZR n -> (0 < n)%Z ->
  (0 <= Trunc (v * s + 0.5) <= n)%Z
  /\ Rabs (IZR (Trunc (v * s + 0.5)) - v * s) <= 0.5.
Proof.
  intros Hv Hs Hn.
  assert (Hs0 : 1 <= s) by (subst s; apply IZR_le; lia).
  assert (Hx : 0.5 <= v * s + 0.5 <= s + 0.5) by nra.
  rewrite Trunc_nonneg by lra.
  destruct (base_Int_part (v * s + 0.5)) as [B1 B2].
  set (k := Int_part (v * s + 0.5)) in *. clearbody k.
  split.
  - split.
    + apply Z.lt_succ_r. apply lt_IZR. rewrite succ_IZR. lra.
    + apply Z.lt_succ_r. apply lt_IZR. rewrite succ_IZR. subst s. lra.
  - apply Rabs_le. lra.
Qed.

Lemma Trunc_half (n : Z) : (0 <= n)%Z -> Trunc (IZR n + 0.5) = n.
Proof.
  intros Hn. assert (0 <= IZR n) by (apply IZR_le; exact Hn).
  rewrite Trunc_nonneg by lra.
  symmetry. apply Int_part_spec. lra.
Qed.

Lemma uint32_channel (r a : Z) :
  (0 <= r <= a)%Z -> (0 < a <= 65535)%Z ->
  (0 <= uint32_wrap (r * 65535) / a <= 65535)%Z.
Proof.
  intros Hr Ha. unfold uint32_wrap.
  rewrite Z.mod_small by (change (2 ^ 32)%Z with 4294967296%Z; nia).
  split.
  - apply Z.div_pos; lia.
  - apply Z.div_le_upper_bound; nia.
Qed.

Lemma uint32_channel_opaque (r : Z) :
  (0 <= r <= 65535)%Z -> (uint32_wrap (r * 65535) / 65535)%Z = r.
Proof.
  intros Hr. unfold uint32_wrap.
  rewrite Z.mod_small by (change (2 ^ 32)%Z with 4294967296%Z; lia).
  apply Z.div_mul. lia.
Qed.

(** [RGBA] of a valid colour returns 16-bit channels and full alpha, each
    channel being the nearest integer to 65535 times the component. *)
Theorem RGBA_valid (c : Color) (Hc : IsValid c = true) :
  let '(r, g, b, a) := RGBA c in
  a = 65535%Z
  /\ (0 <= r <= 65535)%Z /\ (0 <= g <= 65535)%Z /\ (0 <= b <= 65535)%Z
  /\ Rabs (IZR r - chR c * 65535) <= 0.5
  /\ Rabs (IZR g - chG c * 65535) <= 0.5
  /\ Rabs (IZR b - chB c * 65535) <= 0.5.
Proof.
  apply IsValid_bounds in Hc. destruct Hc as (HR & HG & HB).
  unfold RGBA.
  destruct (round_channel (chR c) 65535 65535 HR eq_refl) as [R1 R2]; [lia |].
  destruct (round_channel (chG c) 65535 65535 HG eq_refl) as [G1 G2]; [lia |].
  destruct (round_channel (chB c) 65535 65535 HB eq_refl) as [B1 B2]; [lia |].
  repeat split; try tauto; lia.
Qed.

Lemma RGBA_valid_witness :
  let '(r, g, b, a) := RGBA (mkColor 1 0 (1 / 2)) in
  a = 65535%Z
  /\ (0 <= r <= 65535)%Z /\ (0 <= g <= 65535)%Z /\ (0 <= b <= 65535)%Z
  /\ Rabs (IZR r - chR (mkColor 1 0 (1 / 2)) * 65535) <= 0.5
  /\ Rabs (IZR g - chG (mkColor 1 0 (1 / 2)) * 65535) <= 0.5
  /\ Rabs (IZR b - chB (mkColor 1 0 (1 / 2)) * 65535) <= 0.5.
Proof.
  apply (RGBA_valid (mkColor 1 0 (1 / 2))).
  apply IsValid_intro; simpl; lra.
Defined.

(** [MakeColor] rejects a fully transparent colour, and for every
    alpha-premultiplied input (channels at most alpha, alpha at most 0xffff)
    it succeeds with a valid colour; the multiplication by 0xffff does not
    overflow 32 bits. *)
Theorem MakeColor_premultiplied (r g b a : Z)
  (Ha : (0 < a <= 65535)%Z)
  (Hr : (0 <= r <= a)%Z) (Hg : (0 <= g <= a)%Z) (Hb : (0 <= b <= a)%Z) :
  MakeColor (r, g, b, 0%Z) = (mkColor 0 0 0, false)
  /\ snd (MakeColor (r, g, b, a)) = true
  /\ IsValid (fst (MakeColor (r, g, b, a))) = true
  /\ fst (MakeColor (r, g, b, a))
     = mkColor (IZR (r * 65535 / a) / 65535) (IZR (g * 65535 / a) / 65535)
               (IZR (b * 65535 / a) / 65535).
Proof.
  split; [reflexivity |].
  unfold MakeColor.
  destruct (Z.eqb_spec a 0) as [E | NE]; [lia |]. cbv zeta. cbn [fst snd].
  split; [reflexivity |].
  pose proof (uint32_channel r a Hr Ha) as CR.
  pose proof (uint32_channel g a Hg Ha) as CG.
  pose proof (uint32_channel b a Hb Ha) as CB.
  split.
  - apply IsValid_intro; cbn [chR chG chB].
    + destruct CR as [C1 C2]. apply IZR_le in C1, C2. lra.
    + destruct CG as [C1 C2]. apply IZR_le in C1, C2. lra.
    + destruct CB as [C1 C2]. apply IZR_le in C1, C2. lra.
  - unfold uint32_wrap.
    rewrite !Z.mod_small by (change (2 ^ 32)%Z with 4294967296%Z; nia).
    reflexivity.
Qed.

Lemma MakeColor_premultiplied_witness :
  snd (MakeColor (100, 200, 300, 1000)%Z) = true.
Proof.
  apply (proj1 (proj2 (MakeColor_premultiplied 100 200 300 1000
                         ltac:(lia) ltac:(lia) ltac:(lia) ltac:(lia)))).
Defined.

(** [MakeColor] after [RGBA] returns a valid colour to within half a 16-bit
    step per channel, and [RGBA] after [MakeColor] returns opaque 16-bit
    channels unchanged. *)
Theorem MakeColor_RGBA_roundtrip (c : Color) (r g b : Z)
  (Hc : IsValid c = true)
  (Hr : (0 <= r <= 65535)%Z) (Hg : (0 <= g <= 65535)%Z)
  (Hb : (0 <= b <= 65535)%Z) :
  (snd (MakeColor (RGBA c)) = true
   /\ Rabs (chR (fst (MakeColor (RGBA c))) - chR c) <= 1 / 131070
   /\ Rabs (chG (fst (MakeColor (RGBA c))) - chG c) <= 1 / 131070
   /\ Rabs (chB (fst (MakeColor (RGBA c))) - chB c) <= 1 / 131070)
  /\ RGBA (fst (MakeColor (r, g, b, 65535%Z))) = (r, g, b, 65535%Z).
Proof.
  split.
  - apply IsValid_bounds in Hc. destruct Hc as (HR & HG & HB).
    destruct (round_channel (chR c) 65535 65535 HR eq_refl) as [R1 R2]; [lia |].
    destruct (round_channel (chG c) 65535 65535 HG eq_refl) as [G1 G2]; [lia |].
    destruct (round_channel (chB c) 65535 65535 HB eq_refl) as [B1 B2]; [lia |].
    unfold RGBA, MakeColor. cbn [Z.eqb]. cbv zeta. cbn [fst snd chR chG chB].
    rewrite !uint32_channel_opaque by assumption.
    split; [reflexivity |].
    apply Rabs_le_elim in R2, G2, B2.
    repeat split; apply Rabs_le; lra.
  - unfold MakeColor. cbn [Z.eqb]. cbv zeta. cbn [fst snd].
    rewrite !uint32_channel_opaque by assumption.
    unfold RGBA; cbn [chR chG chB].
    replace (IZR r / 65535 * 65535) with (IZR r) by lra.
    replace (IZR g / 65535 * 65535) with (IZR g) by lra.
    replace (IZR b / 65535 * 65535) with (IZR b) by lra.
    rewrite !Trunc_half by lia. reflexivity.
Qed.

Lemma MakeColor_RGBA_roundtrip_witness :
  RGBA (fst (MakeColor (65535, 0, 32768, 65535)%Z)) = (65535, 0, 32768, 65535)%Z.
Proof.
  assert (Hc : IsValid (mkColor 0 0 0) = true)
    by (apply IsValid_intro; simpl; lra).
  apply (proj2 (MakeColor_RGBA_roundtrip (mkColor 0 0 0) 65535 0 32768 Hc
                  ltac:(lia) ltac:(lia) ltac:(lia))).
Defined.

Lemma hex_digit_inj (a b : Z) :
  (0 <= a < 16)%Z -> (0 <= b < 16)%Z -> hex_digit a = hex_digit b -> a = b.
Proof.
  intros Ha Hb.
  assert (Ca : (a = 0 \/ a = 1 \/ a = 2 \/ a = 3 \/ a = 4 \/ a = 5 \/ a = 6
               \/ a = 7 \/ a = 8 \/ a = 9 \/ a = 10 \/ a = 11 \/ a = 12
               \/ a = 13 \/ a = 14 \/ a = 15)%Z) by lia.
  assert (Cb : (b = 0 \/ b = 1 \/ b = 2 \/ b = 3 \/ b = 4 \/ b = 5 \/ b = 6
               \/ b = 7 \/ b = 8 \/ b = 9 \/ b = 10 \/ b = 11 \/ b = 12
               \/ b = 13 \/ b = 14 \/ b = 15)%Z) by lia.
  repeat (destruct Ca as [-> | Ca]); try subst a;
    repeat (destruct Cb as [-> | Cb]); try subst b;
    intros E; try reflexivity; discriminate E.
Qed.

Lemma fmt_02x_inj (n m : Z) :
  (0 <= n <= 255)%Z -> (0 <= m <= 255)%Z -> fmt_02x n = fmt_02x m -> n = m.
Proof.
  intros Hn Hm E. unfold fmt_02x in E. injection E as E1 E2.
  apply hex_digit_inj in E1;
    [| split; [apply Z.div_pos; lia | apply Z.div_lt_upper_bound; lia]
     | split; [apply Z.div_pos; lia | apply Z.div_lt_upper_bound; lia]].
  apply hex_digit_inj in E2; [| apply Z.mod_pos_bound; lia ..].
  rewrite (Z.div_mod n 16), (Z.div_mod m 16) by lia. congruence.
Qed.

(** For a valid colour [RGB255] returns three bytes, each the nearest
    integer to 255 times the component; [Hex] writes them as ["#"] and six
    hexadecimal digits, so two valid colours have the same hex string exactly
    when they have the same bytes. *)
Theorem Color_Hex_bytes (c1 c2 : Color)
  (H1 : IsValid c1 = true) (H2 : IsValid c2 = true) :
  let '(r, g, b) := RGB255 c1 in
  ((0 <= r <= 255)%Z /\ (0 <= g <= 255)%Z /\ (0 <= b <= 255)%Z
   /\ Rabs (IZR r - chR c1 * 255) <= 0.5
   /\ Rabs (IZR g - chG c1 * 255) <= 0.5
   /\ Rabs (IZR b - chB c1 * 255) <= 0.5)
  /\ String.length (Color_Hex c1) = 7%nat
  /\ (Color_Hex c1 = Color_Hex c2 <-> RGB255 c1 = RGB255 c2).
Proof.
  apply IsValid_bounds in H1, H2.
  destruct H1 as (HR1 & HG1 & HB1), H2 as (HR2 & HG2 & HB2).
  destruct (round_channel (chR c1) 255 255 HR1 eq_refl) as [R1 R1']; [lia |].
  destruct (round_channel (chG c1) 255 255 HG1 eq_refl) as [G1 G1']; [lia |].
  destruct (round_channel (chB c1) 255 255 HB1 eq_refl) as [B1 B1']; [lia |].
  destruct (round_channel (chR c2) 255 255 HR2 eq_refl) as [R2 _]; [lia |].
  destruct (round_channel (chG c2) 255 255 HG2 eq_refl) as [G2 _]; [lia |].
  destruct (round_channel (chB c2) 255 255 HB2 eq_refl) as [B2 _]; [lia |].
  unfold Color_Hex, RGB255.
  set (r1 := Trunc (chR c1 * 255 + 0.5)) in *.
  set (g1 := Trunc (chG c1 * 255 + 0.5)) in *.
  set (b1 := Trunc (chB c1 * 255 + 0.5)) in *.
  set (r2 := Trunc (chR c2 * 255 + 0.5)) in *.
  set (g2 := Trunc (chG c2 * 255 + 0.5)) in *.
  set (b2 := Trunc (chB c2 * 255 + 0.5)) in *.
  clearbody r1 g1 b1 r2 g2 b2.
  split; [tauto |]. split; [reflexivity |].
  split.
  - intros E. unfold fmt_02x in E. cbn [append] in E.
    injection E as E1 E2 E3 E4 E5 E6.
    assert (Er : fmt_02x r1 = fmt_02x r2) by (unfold fmt_02x; congruence).
    assert (Eg : fmt_02x g1 = fmt_02x g2) by (unfold fmt_02x; congruence).
    assert (Eb : fmt_02x b1 = fmt_02x b2) by (unfold fmt_02x; congruence).
    apply fmt_02x_inj in Er, Eg, Eb; try assumption. congruence.
  - intros E. injection E as -> -> ->. reflexivity.
Qed.

Lemma Color_Hex_bytes_witness :
  String.length (Color_Hex (mkColor 1 0 (1 / 2))) = 7%nat.
Proof.
  assert (H : IsValid (mkColor 1 0 (1 / 2)) = true)
    by (apply IsValid_intro; simpl; lra).
  exact (proj1 (proj2 (Color_Hex_bytes (mkColor 1 0 (1 / 2))
                         (mkColor 1 0 (1 / 2)) H H))).
Defined.

End IntegerChannels.

(** ** The fast transfer functions near black *)

Section FastTransfer.

(** On the linear segment of [linearize] the polynomial [linearize_fast]
    overestimates: the error decreases from 0.0033 at black to 0.0015 at the
    threshold 0.04045. *)
Theorem linearize_fast_dark (v : R) (Hv : 0 <= v <= 0.04045) :
  0.00149 <= linearize_fast v - linearize v <= 0.00331.
Proof.
  rewrite linearize_low by lra. unfold linearize_fast. cbv zeta.
  assert (H2 : 0 <= v * v <= 0.04045 * v) by nra.
  assert (H3 : 0 <= v * v * v <= 0.04045 * (v * v)) by nra.
  assert (H4 : 0 <= v * v * v * v <= 0.04045 * (v * v * v)) by nra.
  split; nra.
Qed.

Lemma linearize_fast_dark_witness :
  0.00149 <= linearize_fast 0 - linearize 0 <= 0.00331.
Proof. apply linearize_fast_dark. lra. Defined.

(** Bounds on the powers of a number in a symmetric interval. *)
Lemma centred_powers (t d : R) :
  - d <= t <= d ->
  0 <= t * t <= d * d
  /\ - (d * d * d) <= t * t * t <= d * d * d
  /\ 0 <= t * t * t * t <= d * d * d * d
  /\ - (d * d * d * d * d) <= t * t * t * t * t <= d * d * d * d * d.
Proof.
  intros Ht.
  assert (Hd : 0 <= d) by lra.
  assert (H2 : 0 <= t * t <= d * d) by nra.
  assert (H3 : - (d * d * d) <= t * t * t <= d * d * d) by nra.
  assert (H4 : 0 <= t * t * t * t <= d * d * d * d).
  { replace (t * t * t * t) with ((t * t) * (t * t)) by ring.
    replace (d * d * d * d) with ((d * d) * (d * d)) by ring.
    split; [nra |]. apply Rmult_le_compat; lra. }
  assert (H5 : - (d * d * d * d * d) <= t * t * t * t * t
               <= d * d * d * d * d).
  { replace (t * t * t * t * t) with ((t * t * t * t) * t) by ring.
    replace (d * d * d * d * d) with ((d * d * d * d) * d) by ring.
    assert (0 <= d * d * d * d) by nra.
    split; nra. }
  tauto.
Qed.

(** On the linear segment of [delinearize] the polynomial
    [delinearize_fast] overestimates by 0.0029 to 0.0058. *)
Theorem delinearize_fast_dark (v : R) (Hv : 0 <= v <= 0.0031308) :
  0.0029 <= delinearize_fast v - delinearize v <= 0.0058.
Proof.
  rewrite delinearize_low by lra. unfold delinearize_fast.
  rewrite (ltb_false 0.2 v), (ltb_false 0.03 v) by lra. cbv zeta.
  destruct (Rle_dec v 0.0015654) as [Hlo | Hhi].
  - destruct (centred_powers (v - 0.0007827) 0.0007827) as (T2 & T3 & T4 & T5);
      [lra |].
    split; lra.
  - destruct (centred_powers (v - 0.0023481) 0.0007827) as (T2 & T3 & T4 & T5);
      [lra |].
    split; lra.
Qed.

Lemma delinearize_fast_dark_witness :
  0.0029 <= delinearize_fast 0 - delinearize 0 <= 0.0058.
Proof. apply delinearize_fast_dark. lra. Defined.

End FastTransfer.
